(** * discord-psu-bot: the userbot interception layer

    A shallow embedding of [src/userbot]: the REST route patches
    (patch-rest.ts), the user-agent patch (patch-user-agent.ts), the gateway
    packet and event patches (patch-gateway.ts) and their installation order
    (index.ts, util.ts).

    Conventions of the embedding:
    - a JavaScript string is a [string] whose characters are code units
      below 256;
    - an exception is a value of [exn]; code that may throw returns a
      [result], and an [async] function is modelled by the settled value of
      its promise ([Ok] for fulfilled, [Throw] for rejected);
    - a header object used as a name-to-value mapping is a [gmap string string];
    - a [Map] is the list of its entries in insertion order. *)

From stdpp Require Import base option list strings gmap pretty.
From Stdlib Require Import ZArith Ascii String.

Local Open Scope string_scope.
Set Warnings "-register-all".

(** ** Exceptions and results *)

Inductive exn : Type :=
  | TypeError                 (* dereferencing [undefined] or [null] *)
  | SyntaxError               (* [new RegExp] on a rejected pattern *)
  | Thrown (what : string).   (* anything a callback throws itself *)

Inductive result (A : Type) : Type :=
  | Ok (a : A)
  | Throw (e : exn).
Arguments Ok {A} a.
Arguments Throw {A} e.

#[global] Instance result_ret : MRet result := λ A a, Ok a.
#[global] Instance result_bind : MBind result := λ A B f r,
  match r with
  | Ok a => f a
  | Throw e => Throw e
  end.

#[global] Instance result_fmap : FMap result := λ A B f r,
  match r with
  | Ok a => Ok (f a)
  | Throw e => Throw e
  end.

#[global] Instance exn_eq_dec : EqDecision exn.
Proof. solve_decision. Defined.

(** ** Strings *)

Module JsString.

(** [WhiteSpace] and [LineTerminator] code units below 256. *)
Definition isWhiteSpace (c : ascii) : bool :=
  bool_decide (c ∈ ["009"; "010"; "011"; "012"; "013"; " "; "160"]%char).

(** [String.prototype.trimStart]. *)
Fixpoint trimStart (s : string) : string :=
  match s with
  | String c s' => if isWhiteSpace c then trimStart s' else s
  | "" => ""
  end.

(** [s.split(sep)] for a separator of one character. *)
Fixpoint split (sep : ascii) (s : string) : list string :=
  match s with
  | "" => [""]
  | String c s' =>
      if Ascii.eqb c sep then "" :: split sep s'
      else match split sep s' with
           | piece :: pieces => String c piece :: pieces
           | [] => [String c ""]
           end
  end.

(** [s.split(sep, limit)]: the first [limit] pieces of the full split. *)
Definition splitLimit (sep : ascii) (limit : nat) (s : string) : list string :=
  take limit (split sep s).

(** [sep] does not occur in [s]. *)
Fixpoint lacks (sep : ascii) (s : string) : bool :=
  match s with
  | "" => true
  | String c s' => negb (Ascii.eqb c sep) && lacks sep s'
  end.

(** [s.startsWith(p)]. *)
Fixpoint startsWith (s p : string) : bool :=
  match p, s with
  | "", _ => true
  | String a p', String b s' => Ascii.eqb a b && startsWith s' p'
  | String _ _, "" => false
  end.

(** [s.indexOf(p)]: the first index at which [p] occurs, [-1] if none. *)
Fixpoint indexOf (s p : string) : Z :=
  if startsWith s p then 0%Z
  else match s with
       | "" => (-1)%Z
       | String _ s' =>
           let i := indexOf s' p in
           if (i <? 0)%Z then (-1)%Z else (i + 1)%Z
       end.

Fixpoint takeChars (n : nat) (s : string) : string :=
  match n, s with
  | S n', String c s' => String c (takeChars n' s')
  | _, _ => ""
  end.

Fixpoint dropChars (n : nat) (s : string) : string :=
  match n, s with
  | S n', String _ s' => dropChars n' s'
  | _, _ => s
  end.

(** [s.substring(a, b)]: both indices are clamped to [0 .. length] and
    swapped when [a > b]. *)
Definition substring (a b : Z) (s : string) : string :=
  let len := Z.of_nat (String.length s) in
  let clamp i := Z.min (Z.max i 0) len in
  let lo := Z.min (clamp a) (clamp b) in
  let hi := Z.max (clamp a) (clamp b) in
  takeChars (Z.to_nat (hi - lo)) (dropChars (Z.to_nat lo) s).

End JsString.

(** ** Regular expressions

    The fragment of [RegExp] that [testParameterizedMatch] builds: the start
    anchor, literal characters (a syntax character escaped by a backslash)
    and the class repetition [[^/]+]. *)

Module RegExp.

(** The [SyntaxCharacter]s; [escapeRegExp] escapes exactly these. *)
Definition isSyntaxChar (c : ascii) : bool :=
  bool_decide (c ∈ ["."; "*"; "+"; "?"; "^"; "$"; "{"; "}"; "("; ")";
                    "|"; "["; "]"; "\"]%char).

Inductive atom : Type :=
  | AStart            (* [^] *)
  | AChar (c : ascii) (* a literal character *)
  | ANotSlashPlus.    (* [[^/]+] *)

(** [new RegExp(src)] on the fragment; [None] stands for a source outside
    of it (every source JavaScript rejects is outside). *)
Fixpoint parse (src : string) : option (list atom) :=
  match src with
  | "" => Some []
  | String c rest =>
      if Ascii.eqb c "\" then
        match rest with
        | String d rest' =>
            if isSyntaxChar d then cons (AChar d) <$> parse rest' else None
        | "" => None
        end
      else if Ascii.eqb c "[" then
        match rest with
        | String "^" (String "/" (String "]" (String "+" rest'))) =>
            cons ANotSlashPlus <$> parse rest'
        | _ => None
        end
      else if Ascii.eqb c "^" then cons AStart <$> parse rest
      else if isSyntaxChar c then None
      else cons (AChar c) <$> parse rest
  end.

Definition compile (src : string) : result (list atom) :=
  match parse src with
  | Some re => Ok re
  | None => Throw SyntaxError
  end.

(** Backtracking match of [re] at the current position of the input;
    [atStart] tells whether that position is index 0. The repetition is
    greedy: it first tries to take one more character. *)
Fixpoint matchHere (re : list atom) (atStart : bool) (s : string) : bool :=
  match re with
  | [] => true
  | AStart :: re' => atStart && matchHere re' atStart s
  | AChar c :: re' =>
      match s with
      | String d s' => Ascii.eqb c d && matchHere re' false s'
      | "" => false
      end
  | ANotSlashPlus :: re' =>
      (fix plus (s : string) : bool :=
         match s with
         | String d s' =>
             negb (Ascii.eqb d "/") && (plus s' || matchHere re' false s')
         | "" => false
         end) s
  end.

(** [re.test(s)] for a regular expression without flags: the first start
    index, from 0 up, at which [re] matches. *)
Fixpoint searchFrom (re : list atom) (atStart : bool) (s : string) : bool :=
  matchHere re atStart s ||
  match s with
  | String _ s' => searchFrom re false s'
  | "" => false
  end.

Definition test (re : list atom) (s : string) : bool := searchFrom re true s.

End RegExp.

(** ** JavaScript values

    [unknown] data: gateway frames and REST bodies. Numbers are the
    integers; an array carries its elements and, as any object may, named
    properties. *)

Inductive value : Type :=
  | VUndef
  | VNull
  | VBool (b : bool)
  | VNum (n : Z)
  | VStr (s : string)
  | VArr (elems : list value) (named : list (string * value))
  | VObj (props : list (string * value)).

Module Js.

(** [v != null && typeof v === 'object']. *)
Definition isObject (v : value) : bool :=
  match v with
  | VArr _ _ | VObj _ => true
  | _ => false
  end.

Definition indexed {A} (l : list A) : list (string * A) :=
  imap (λ i x, (pretty i, x)) l.

Fixpoint chars (s : string) : list value :=
  match s with
  | "" => []
  | String c s' => VStr (String c "") :: chars s'
  end.

(** The own enumerable properties, in property order. *)
Definition ownProps (v : value) : list (string * value) :=
  match v with
  | VObj props => props
  | VArr elems named => indexed elems ++ named
  | VStr s => indexed (chars s)
  | _ => []
  end.

Fixpoint assoc {A} (k : string) (l : list (string * A)) : option A :=
  match l with
  | [] => None
  | (k', x) :: l' => if String.eqb k' k then Some x else assoc k l'
  end.

(** [o[k] = x] on a property list: in place when [k] is there, appended
    otherwise. *)
Fixpoint assign {A} (k : string) (x : A) (l : list (string * A)) : list (string * A) :=
  match l with
  | [] => [(k, x)]
  | (k', y) :: l' => if String.eqb k' k then (k', x) :: l' else (k', y) :: assign k x l'
  end.

(** [v.k] for a property name that no prototype defines ([op], [t], [d],
    [data], ...); [v] is not [null] or [undefined]. *)
Definition getProp (v : value) (k : string) : value :=
  default VUndef (assoc k (ownProps v)).

(** [k in v] for an object [v] and such a name. *)
Definition hasProp (v : value) (k : string) : bool :=
  bool_decide (is_Some (assoc k (ownProps v))).

(** [v.k = x] in strict mode, for a name that is neither an array index
    nor [length]: a [TypeError] unless [v] is an object. *)
Definition setProp (v : value) (k : string) (x : value) : result value :=
  match v with
  | VObj props => Ok (VObj (assign k x props))
  | VArr elems named => Ok (VArr elems (assign k x named))
  | _ => Throw TypeError
  end.

(** [delete o.k] on a property list. *)
Fixpoint remove {A} (k : string) (l : list (string * A)) : list (string * A) :=
  match l with
  | [] => []
  | (k', y) :: l' => if String.eqb k' k then l' else (k', y) :: remove k l'
  end.

(** [delete v.k] for such a name; a [TypeError] when [v] is [null] or
    [undefined], no effect on the other primitives. *)
Definition deleteProp (v : value) (k : string) : result value :=
  match v with
  | VObj props => Ok (VObj (remove k props))
  | VArr elems named => Ok (VArr elems (remove k named))
  | VUndef | VNull => Throw TypeError
  | _ => Ok v
  end.

(** [v.k] where [v] may be [null] or [undefined]. *)
Definition member (v : value) (k : string) : result value :=
  match v with
  | VUndef | VNull => Throw TypeError
  | _ => Ok (getProp v k)
  end.

(** [v === n] for a number [n], and [v === s] for a string [s]. *)
Definition isNumber (v : value) (n : Z) : bool :=
  match v with
  | VNum m => Z.eqb m n
  | _ => false
  end.

Definition isString (v : value) (s : string) : bool :=
  match v with
  | VStr s' => String.eqb s' s
  | _ => false
  end.

(** [{ ...base, ...v }]: the own enumerable properties of [v] written, in
    order, over [base]. *)
Definition spreadOver (base : list (string * value)) (v : value) : list (string * value) :=
  foldl (λ acc kv, assign kv.1 kv.2 acc) base (ownProps v).

Definition join (sep : string) (l : list string) : string :=
  match l with
  | [] => ""
  | x :: l' => foldl (λ acc y, acc +:+ sep +:+ y) x l'
  end.

(** [ToString], which a computed member access [o[v]] applies to [v]; a
    number is printed by its digits, which is what JavaScript prints below
    10^21. *)
Fixpoint toString (v : value) : string :=
  match v with
  | VUndef => "undefined"
  | VNull => "null"
  | VBool true => "true"
  | VBool false => "false"
  | VNum n => pretty n
  | VStr s => s
  | VArr elems _ =>
      join "," (map (λ x, match x with
                          | VUndef | VNull => ""
                          | _ => toString x
                          end) elems)
  | VObj _ => "[object Object]"
  end.

End Js.

(** ** A [Map]: its entries in insertion order, keys distinct *)

Module Map.

Definition t (V : Type) : Type := list (string * V).

Definition get {V} (k : string) (m : t V) : option V := Js.assoc k m.
Definition set {V} (k : string) (x : V) (m : t V) : t V := Js.assign k x m.
Definition entries {V} (m : t V) : list (string * V) := m.

End Map.

(** ** The data the patches work on *)

(** The client as a patch callback reads it: the configured user agent,
    which [getUserAgent] looks up. *)
Record Context : Type := { ctx_userAgent : option string }.

(** [RequestOptions.headers]: absent, a list of ["Name: value"] strings, or
    an object from name to value. *)
Inductive Headers : Type :=
  | NoHeaders
  | HeaderList (lines : list string)
  | HeaderObject (fields : gmap string string).

Record RequestOptions : Type := {
  headers : Headers;
  fetchOthers : value;   (* method, body, ... *)
}.

(** What [resolveRequest] returns. *)
Record Resolved : Type := {
  url : string;
  fetchOptions : RequestOptions;
}.

(** [InternalRequest]. *)
Record RestRequest : Type := {
  fullRoute : string;
  requestOthers : value;   (* method, body, query, ... *)
}.

(** patch-rest.ts, [RoutePatch]. *)
Record RoutePatch : Type := {
  redirect : option string;
  pre : option (Context → RestRequest → result RestRequest);
  post : option (Context → RestRequest → value → result value);
  resolve : option (Context → RestRequest → Resolved → result Resolved);
}.

Record RestConfig : Type := { routes : Map.t RoutePatch }.

(** patch-gateway.ts, [GatewayPacketPatch] and [GatewayEventPatch]. *)
Record GatewayPacketPatch : Type := {
  packet_inbound : option (Context → value → result value);
  packet_outbound : option (Context → value → result value);
}.

Record GatewayEventPatch : Type := {
  event_inbound : option (Context → value → result value);
}.

(** The two patch sets are objects; a member access [packets[opcode]]
    looks up the property named [ToString(opcode)]. *)
Record GatewayConfig : Type := {
  packets : gmap string GatewayPacketPatch;
  events : gmap string GatewayEventPatch;
}.

Record UserAgentConfig : Type := { value_ : string }.

(** [client.patches]: one slot for each patch id. *)
Record Patches : Type := {
  patches_authPrefix : option unit;
  patches_gateway : option GatewayConfig;
  patches_rest : option RestConfig;
  patches_userAgent : option UserAgentConfig;
}.

Definition noPatches : Patches :=
  {| patches_authPrefix := None; patches_gateway := None;
     patches_rest := None; patches_userAgent := None |}.

Definition contextOf (p : Patches) : Context :=
  {| ctx_userAgent := value_ <$> patches_userAgent p |}.

(** [client.patches.<id>], a [TypeError] while the slot is undefined and a
    member of it is read. *)
Definition slot {A} (o : option A) : result A :=
  match o with
  | Some a => Ok a
  | None => Throw TypeError
  end.

(** The part of the discord.js client that the patches replace. The wrappers
    close over the client and read [client.patches] when they are called, so
    a method takes the patches current at the call. *)
Record Client : Type := {
  patches : Patches;
  authPrefix : string;           (* rest.requestManager.options.authPrefix *)
  request : Patches → RestRequest → list value → result value;
  resolveRequest : Patches → RestRequest → list value → result Resolved;
  ws_internal : bool;            (* whether [client.ws._ws] is defined *)
}.

(** util.ts, [PatchDeclaration]: the id and the config of a patch. *)
Inductive PatchDeclaration : Type :=
  | DeclAuthPrefix
  | DeclGateway (config : GatewayConfig)
  | DeclRest (config : RestConfig)
  | DeclUserAgent (config : UserAgentConfig).

Definition with_headers (h : Headers) (r : Resolved) : Resolved :=
  {| url := url r;
     fetchOptions := {| headers := h;
                        fetchOthers := fetchOthers (fetchOptions r) |} |}.

Definition with_fullRoute (route : string) (o : RestRequest) : RestRequest :=
  {| fullRoute := route; requestOthers := requestOthers o |}.

(** ** patch-user-agent.ts *)

Module UserAgent.
Import JsString.

Definition DEFAULT_USER_AGENT : string :=
  "Mozilla/5.0 (Windows NT 10.0; Win64; x64) AppleWebKit/537.36 (KHTML, like Gecko) Chrome/109.0.0.0 Safari/537.36".

(** [([name, val]) => [name, val.trimStart()]] applied to
    [header.split(':', 2)]: a header without a colon leaves [val]
    undefined, and [val.trimStart()] throws. *)
Definition headerEntry (header : string) : result (string * string) :=
  match splitLimit ":" 2 header with
  | name :: val :: _ => Ok (name, trimStart val)
  | _ => Throw TypeError
  end.

(** [Object.fromEntries]: a later entry overwrites an earlier one with the
    same name. *)
Definition fromEntries (entries : list (string * string)) : gmap string string :=
  foldl (λ m e, <[e.1 := e.2]> m) ∅ entries.

(** The expression of lines 48-50:
    [Object.fromEntries(headers.map(split).map(trim))]. *)
Definition normalizeHeaders (headers : list string) : result (gmap string string) :=
  entries ← mapM headerEntry headers;
  Ok (fromEntries entries).

(** The local variable [headers] of the wrapper: it holds either the very
    object that [result.fetchOptions.headers] holds, or an object of its
    own that [result] does not reach. *)
Inductive HeadersVar : Type :=
  | SameAsResult
  | OwnObject (fields : gmap string string).

(** Lines 45-51: [let headers = result.fetchOptions.headers], rebound to
    the normalized object when it is an array. *)
Definition normalizeStep (res : Resolved) : result HeadersVar :=
  match headers (fetchOptions res) with
  | HeaderList lines => OwnObject <$> normalizeHeaders lines
  | _ => Ok SameAsResult
  end.

(** Lines 53-55: [headers['User-Agent'] = ...] when [headers] is an object
    and not an array. The write reaches [result] only when [headers] is
    the object [result] holds. *)
Definition injectStep (p : Patches) (res : Resolved) (var : HeadersVar)
  : result (Resolved * HeadersVar) :=
  match var with
  | OwnObject fields =>
      ua ← slot (patches_userAgent p);
      Ok (res, OwnObject (<["User-Agent" := value_ ua]> fields))
  | SameAsResult =>
      match headers (fetchOptions res) with
      | HeaderObject fields =>
          ua ← slot (patches_userAgent p);
          Ok (with_headers (HeaderObject (<["User-Agent" := value_ ua]> fields)) res,
              SameAsResult)
      | _ => Ok (res, SameAsResult)
      end
  end.

(** The function that [wrapResolveRequest] installs in place of
    [original]; it returns [result]. *)
Definition wrapResolveRequest
    (original : Patches → RestRequest → list value → result Resolved)
  : Patches → RestRequest → list value → result Resolved :=
  λ p options args,
    res ← original p options args;
    var ← normalizeStep res;
    out ← injectStep p res var;
    Ok out.1.

Definition set_resolveRequest f (c : Client) : Client :=
  {| patches := patches c; authPrefix := authPrefix c; request := request c;
     resolveRequest := f; ws_internal := ws_internal c |}.

Definition UserAgent (client : Client) : result (Client * PatchDeclaration) :=
  Ok (set_resolveRequest (wrapResolveRequest (resolveRequest client)) client,
      DeclUserAgent {| value_ := DEFAULT_USER_AGENT |}).

Definition getUserAgent (ctx : Context) : string :=
  default DEFAULT_USER_AGENT (ctx_userAgent ctx).

End UserAgent.

(** ** patch-rest.ts *)

Module Rest.
Import JsString.

(** Modelled from the spec: the routes [Routes.gatewayBot()] and
    [Routes.gateway()] of discord.js, which the default patches name; the
    specification gives them as [/gateway/bot] and [/gateway]. *)
Definition Routes_gatewayBot : string := "/gateway/bot".
Definition Routes_gateway : string := "/gateway".

(** [string.replace(/[.*+?^${}()|[\]\\]/g, '\\$&')]: a backslash before
    every syntax character. *)
Fixpoint escapeRegExp (s : string) : string :=
  match s with
  | "" => ""
  | String c s' =>
      if RegExp.isSyntaxChar c then String "\" (String c (escapeRegExp s'))
      else String c (escapeRegExp s')
  end.

(** The class [[a-z]]. *)
Definition isLower (c : ascii) : bool :=
  (97 <=? N_of_ascii c)%N && (N_of_ascii c <=? 122)%N.

Fixpoint skipLower (s : string) : string :=
  match s with
  | String c s' => if isLower c then skipLower s' else s
  | "" => ""
  end.

Fixpoint stripPrefix (p s : string) : option string :=
  match p, s with
  | "", _ => Some s
  | String a p', String b s' => if Ascii.eqb a b then stripPrefix p' s' else None
  | String _ _, "" => None
  end.

(** A match of [opening [a-z]+ closing] at the start of [s], giving what
    follows the match. [closing] starts with a character outside [[a-z]],
    so the greedy run of letters is the only candidate. *)
Definition matchPlaceholder (opening closing s : string) : option string :=
  match stripPrefix opening s with
  | Some (String c rest) =>
      if isLower c then stripPrefix closing (skipLower rest) else None
  | _ => None
  end.

(** [REGEX_PARAMETER.test(key)] for [/\{:[a-z]+\}/]: a match at some
    index. *)
Fixpoint REGEX_PARAMETER_test (key : string) : bool :=
  bool_decide (is_Some (matchPlaceholder "{:" "}" key)) ||
  match key with
  | String _ key' => REGEX_PARAMETER_test key'
  | "" => false
  end.

(** [s.replace(/\\\{:[a-z]+\\\}/g, '[^/]+')], scanning from the left: a
    match is replaced and the scan goes on after it, any other character is
    kept. Every step consumes a character, so [fuel] above the length of
    [s] is never used up. *)
Fixpoint replaceParameters_from (fuel : nat) (s : string) : string :=
  match fuel with
  | 0 => s
  | S fuel' =>
      match matchPlaceholder "\{:" "\}" s with
      | Some rest => "[^/]+" +:+ replaceParameters_from fuel' rest
      | None =>
          match s with
          | String c s' => String c (replaceParameters_from fuel' s')
          | "" => ""
          end
      end
  end.

Definition replaceParameters (s : string) : string :=
  replaceParameters_from (S (String.length s)) s.

Definition testParameterizedMatch (route key : string) : result bool :=
  if negb (REGEX_PARAMETER_test key) then Ok false
  else if negb (startsWith key (substring 0 (indexOf route "{:") route))
  then Ok false
  else
    let keyEscaped := escapeRegExp key in
    keyRegex ← RegExp.compile ("^" +:+ replaceParameters keyEscaped);
    Ok (RegExp.test keyRegex route).

(** The loop of lines 115-120 over [routes.entries()]. *)
Fixpoint firstParameterized (route : string) (entries : list (string * RoutePatch))
  : result (option RoutePatch) :=
  match entries with
  | [] => Ok None
  | (key, val) :: entries' =>
      matched ← testParameterizedMatch route key;
      if matched : bool then Ok (Some val)
      else firstParameterized route entries'
  end.

(** Lines 110-121 (and again 159-170): the patch for [route]. *)
Definition lookupPatch (route : string) (routes : Map.t RoutePatch)
  : result (option RoutePatch) :=
  match Map.get route routes with
  | Some patch => Ok (Some patch)
  | None => firstParameterized route (Map.entries routes)
  end.

(** Lines 124-126: [if (patch?.redirect) options.fullRoute = patch.redirect];
    the empty string is falsy. *)
Definition applyRedirect (patch : option RoutePatch) (options : RestRequest) : RestRequest :=
  match patch ≫= redirect with
  | Some target => if String.eqb target "" then options else with_fullRoute target options
  | None => options
  end.

(** The function that [patchRequest] installs as [client.rest.request]. *)
Definition patchRequest
    (original : Patches → RestRequest → list value → result value)
  : Patches → RestRequest → list value → result value :=
  λ p options args,
    let route := fullRoute options in
    config ← slot (patches_rest p);
    patch ← lookupPatch route (routes config);
    let options := applyRedirect patch options in
    options ← match patch ≫= pre with
              | Some hook => hook (contextOf p) options
              | None => Ok options
              end;
    res ← original p options args;
    match patch ≫= post with
    | Some hook => hook (contextOf p) options res
    | None => Ok res
    end.

(** The function that [patchResolveRequest] installs as
    [client.rest.requestManager.resolveRequest]. *)
Definition patchResolveRequest
    (original : Patches → RestRequest → list value → result Resolved)
  : Patches → RestRequest → list value → result Resolved :=
  λ p options args,
    let route := fullRoute options in
    config ← slot (patches_rest p);
    patch ← lookupPatch route (routes config);
    res ← original p options args;
    match patch ≫= resolve with
    | Some hook => hook (contextOf p) options res
    | None => Ok res
    end.

(** [post] of the gateway-bot route. *)
Definition gatewayBot_post (client : Context) (req : RestRequest) (res : value)
  : result value :=
  Ok (VObj (Js.spreadOver
              [("shards", VNum 1);
               ("session_start_limit",
                VObj [("total", VNum 1); ("remaining", VNum 1);
                      ("reset_after", VNum 14400000);
                      ("max_concurrency", VNum 1)])]
              res)).

(** [s.replace(/^Bearer /, '')]. *)
Definition stripBearer (s : string) : string :=
  default s (stripPrefix "Bearer " s).

(** [resolve] of ['/users/{:id}/']: [headers['Authorization']] is
    undefined on an array and on an object without that name, and reading
    a member of undefined headers throws as well. *)
Definition users_resolve (client : Context) (req : RestRequest) (resolved : Resolved)
  : result Resolved :=
  match headers (fetchOptions resolved) with
  | HeaderObject fields =>
      match fields !! "Authorization" with
      | Some auth =>
          Ok (with_headers
                (HeaderObject (<["Authorization" := stripBearer auth]> fields))
                resolved)
      | None => Throw TypeError
      end
  | HeaderList _ => Throw TypeError
  | NoHeaders => Throw TypeError
  end.

Definition DEFAULT_ROUTE_PATCHES : list (string * RoutePatch) :=
  [ (Routes_gatewayBot,
     {| redirect := Some Routes_gateway; pre := None;
        post := Some gatewayBot_post; resolve := None |});
    ("/users/{:id}/",
     {| redirect := None; pre := None; post := None;
        resolve := Some users_resolve |}) ].

(** [new Map(Object.entries(DEFAULT_ROUTE_PATCHES))]. *)
Definition createDefaults : Map.t RoutePatch :=
  foldl (λ m e, Map.set e.1 e.2 m) [] DEFAULT_ROUTE_PATCHES.

Definition set_rest req res (c : Client) : Client :=
  {| patches := patches c; authPrefix := authPrefix c; request := req;
     resolveRequest := res; ws_internal := ws_internal c |}.

Definition Rest (client : Client) : result (Client * PatchDeclaration) :=
  Ok (set_rest (patchRequest (request client))
               (patchResolveRequest (resolveRequest client)) client,
      DeclRest {| routes := createDefaults |}).

End Rest.

(** ** patch-gateway.ts *)

Module Gateway.

(** Constants of discord-api-types and @discordjs/ws. *)
Definition GatewayOpcodes_Dispatch : Z := 0.
Definition GatewayOpcodes_Identify : Z := 2.
Definition GatewayDispatchEvents_Ready : string := "READY".
Definition WSWebSocketShardEvents_Dispatch : string := "dispatch".

(** [client.patches.gateway.packets[opcode]]. *)
Definition packetPatch (p : Patches) (opcode : value) : result (option GatewayPacketPatch) :=
  config ← slot (patches_gateway p);
  Ok (packets config !! Js.toString opcode).

(** [client.patches.gateway.events[event]]. *)
Definition eventPatch (p : Patches) (event : value) : result (option GatewayEventPatch) :=
  config ← slot (patches_gateway p);
  Ok (events config !! Js.toString event).

(** [if (hook) data = hook(client, data)]. *)
Definition applyHook (hook : option (Context → value → result value))
    (client : Context) (data : value) : result value :=
  match hook with
  | Some f => f client data
  | None => Ok data
  end.

(** Lines 143-150: the frame that [send] passes on. *)
Definition outboundData (p : Patches) (data : value) : result value :=
  if Js.isObject data && Js.hasProp data "op" then
    let opcode := Js.getProp data "op" in
    patch ← packetPatch p opcode;
    applyHook (patch ≫= packet_outbound) (contextOf p) data
  else Ok data.

(** The function that [patchShardOutbound] installs as [shard.send]. *)
Definition patchShardOutbound {R} (original : value → list value → result R)
  : Patches → value → list value → result R :=
  λ p data args,
    data ← outboundData p data;
    original data args.

(** Lines 178-195, for a frame that is an object with an [op]: the packet
    patch of the opcode, then, for the dispatch opcode, the event patch
    named by the [t] of the frame as it is by then. *)
Definition inboundData (p : Patches) (data : value) : result value :=
  let opcode := Js.getProp data "op" in
  patch ← packetPatch p opcode;
  data ← applyHook (patch ≫= packet_inbound) (contextOf p) data;
  if Js.isNumber opcode GatewayOpcodes_Dispatch then
    event ← Js.member data "t";
    patch ← eventPatch p event;
    applyHook (patch ≫= event_inbound) (contextOf p) data
  else Ok data.

(** The function that [patchShardInbound] installs as [ws.emit]; [args]
    is the event name followed by the event data. The patched frame is
    written into the envelope, which [args] shares with [eventData]. (The
    [console.error] of line 176 only logs.) *)
Definition patchShardInbound {R} (original : list value → result R)
  : Patches → list value → result R :=
  λ p args,
    let event := default VUndef (args !! 0%nat) in
    let eventData := drop 1 args in
    if negb (Js.isString event WSWebSocketShardEvents_Dispatch) then original args
    else
      let envelope := default VUndef (eventData !! 0%nat) in
      data ← Js.member envelope "data";
      if Js.isObject data && Js.hasProp data "op" then
        data ← inboundData p data;
        envelope ← Js.setProp envelope "data" data;
        original (event :: envelope :: drop 1 eventData)
      else original args.

Definition identify_outbound (client : Context) (packet : value) : result value :=
  data ← Js.member packet "d";
  data ← Js.setProp data "capabilities" (VNum 4093);
  data ← Js.setProp data "properties"
    (VObj [("browser", VStr "Chrome");
           ("browser_user_agent", VStr (UserAgent.getUserAgent client));
           ("browser_version", VStr "109.0.0.0");
           ("client_build_number", VNum 171842);
           ("client_event_source", VNull);
           ("device", VStr "");
           ("os", VStr "Windows");
           ("os_version", VStr "10");
           ("referrer", VStr "");
           ("referrer_current", VStr "");
           ("referring_domain", VStr "");
           ("referring_domain_current", VStr "");
           ("release_channel", VStr "stable");
           ("system_locale", VStr "en-CA")]);
  data ← Js.deleteProp data "shard";
  Js.setProp packet "d" data.

Definition ready_inbound (client : Context) (packet : value) : result value :=
  data ← Js.member packet "d";
  data ← Js.setProp data "application"
    (VObj [("id", VStr "0"); ("flags", VNum 0)]);
  Js.setProp packet "d" data.

Definition DEFAULT_GATEWAY_PACKET_PATCHES : gmap string GatewayPacketPatch :=
  {[ pretty GatewayOpcodes_Identify :=
       {| packet_inbound := None; packet_outbound := Some identify_outbound |} ]}.

Definition DEFAULT_GATEWAY_EVENT_PATCHES : gmap string GatewayEventPatch :=
  {[ GatewayDispatchEvents_Ready := {| event_inbound := Some ready_inbound |} ]}.

Definition createDefaults : GatewayConfig :=
  {| packets := DEFAULT_GATEWAY_PACKET_PATCHES;
     events := DEFAULT_GATEWAY_EVENT_PATCHES |}.

(** [Gateway]: [patchCreateShardManager] throws unless [client.ws._ws] is
    there; the accessor it then defines, which patches a manager when one
    is assigned, is outside the model. *)
Definition Gateway (client : Client) : result (Client * PatchDeclaration) :=
  if ws_internal client then Ok (client, DeclGateway createDefaults)
  else Throw (Thrown "discord.js internal API has changed").

End Gateway.

(** ** patch-auth.ts, util.ts and index.ts *)

Definition BearerToken (client : Client) : result (Client * PatchDeclaration) :=
  Ok ({| patches := patches client; authPrefix := "Bearer";
         request := request client; resolveRequest := resolveRequest client;
         ws_internal := ws_internal client |},
      DeclAuthPrefix).

(** [patches[id] = config]. *)
Definition declare (d : PatchDeclaration) (p : Patches) : Patches :=
  match d with
  | DeclAuthPrefix =>
      {| patches_authPrefix := Some (); patches_gateway := patches_gateway p;
         patches_rest := patches_rest p; patches_userAgent := patches_userAgent p |}
  | DeclGateway config =>
      {| patches_authPrefix := patches_authPrefix p; patches_gateway := Some config;
         patches_rest := patches_rest p; patches_userAgent := patches_userAgent p |}
  | DeclRest config =>
      {| patches_authPrefix := patches_authPrefix p; patches_gateway := patches_gateway p;
         patches_rest := Some config; patches_userAgent := patches_userAgent p |}
  | DeclUserAgent config =>
      {| patches_authPrefix := patches_authPrefix p; patches_gateway := patches_gateway p;
         patches_rest := patches_rest p; patches_userAgent := Some config |}
  end.

Definition set_patches (p : Patches) (c : Client) : Client :=
  {| patches := p; authPrefix := authPrefix c; request := request c;
     resolveRequest := resolveRequest c; ws_internal := ws_internal c |}.

Definition PatchFunction : Type := Client → result (Client * PatchDeclaration).

Definition patchClient (client : Client) (patch : PatchFunction) : result Client :=
  applied ← patch client;
  Ok (set_patches (declare applied.2 (patches applied.1)) applied.1).

Definition DEFAULT_PATCHES : list PatchFunction :=
  [BearerToken; Gateway.Gateway; Rest.Rest; UserAgent.UserAgent].

Fixpoint patchAll (ps : list PatchFunction) (client : Client) : result Client :=
  match ps with
  | [] => Ok client
  | patch :: ps' => client ← patchClient client patch; patchAll ps' client
  end.

Definition userbot (client : Client) : result Client :=
  patchAll DEFAULT_PATCHES client.

(** A call of a method of the client: the wrappers see the patches the
    client has then. *)
Definition call_request (c : Client) := request c (patches c).
Definition call_resolveRequest (c : Client) := resolveRequest c (patches c).

(** A client as discord.js makes it: no patches yet, the bot prefix, and
    methods of its own, which know nothing of [client.patches]. *)
Definition unpatched
    (request : RestRequest → list value → result value)
    (resolveRequest : RestRequest → list value → result Resolved) : Client :=
  {| patches := noPatches;
     authPrefix := "Bot";
     request := λ _, request;
     resolveRequest := λ _, resolveRequest;
     ws_internal := true |}.

(** What [userbot] declares in [client.patches]. *)
Definition defaultPatches : Patches :=
  {| patches_authPrefix := Some ();
     patches_gateway := Some Gateway.createDefaults;
     patches_rest := Some {| routes := Rest.createDefaults |};
     patches_userAgent := Some {| value_ := UserAgent.DEFAULT_USER_AGENT |} |}.

(** ** The route matcher as the specification words it *)

Module RouteSpec.

(** No character of [w] is the separator ['/']. *)
Fixpoint noSlash (w : string) : Prop :=
  match w with
  | "" => True
  | String c w' => c ≠ "/"%char ∧ noSlash w'
  end.

(** A letter from [a] to [z]. *)
Definition lowerLetter (c : ascii) : Prop :=
  (N_of_ascii "a" ≤ N_of_ascii c ≤ N_of_ascii "z")%N.

Fixpoint allLower (s : string) : Prop :=
  match s with
  | "" => True
  | String c s' => lowerLetter c ∧ allLower s'
  end.

(** [s] starts with a placeholder [{:name}], one or more lower-case letters
    between the braces, and [rest] follows it. *)
Definition Placeholder (s rest : string) : Prop :=
  ∃ name, name ≠ "" ∧ allLower name ∧ s = "{:" +:+ name +:+ "}" +:+ rest.

(** [Instantiates template p]: [p] is [template] with each placeholder
    replaced by one or more characters other than ['/'], every other
    character kept. *)
Inductive Instantiates : string → string → Prop :=
  | inst_end : Instantiates "" ""
  | inst_placeholder template rest w p :
      Placeholder template rest →
      w ≠ "" → noSlash w →
      Instantiates rest p →
      Instantiates template (w +:+ p)
  | inst_literal c template p :
      (∀ rest, ¬ Placeholder (String c template) rest) →
      Instantiates template p →
      Instantiates (String c template) (String c p).

(** The template has a placeholder somewhere. *)
Definition HasPlaceholder (template : string) : Prop :=
  ∃ before after rest, template = before +:+ after ∧ Placeholder after rest.

(** The template, anchored at the start, matches a prefix of [route]. *)
Definition MatchesPrefix (template route : string) : Prop :=
  ∃ p rest, route = p +:+ rest ∧ Instantiates template p.

Definition Prefix (p s : string) : Prop := ∃ t, s = p +:+ t.

(** [before] is what precedes the first ["{:"] of [route]. *)
Definition BeforeFirstBrace (route before : string) : Prop :=
  (∃ after, route = before +:+ "{:" +:+ after) ∧
  ∀ a b, route = a +:+ "{:" +:+ b → (String.length before ≤ String.length a)%nat.

(** The guard of line 85 in words: what precedes the first ["{:"] of the
    route is a prefix of the template; a route without ["{:"] has nothing
    to check. *)
Definition RoutePrefixInTemplate (template route : string) : Prop :=
  ∀ before, BeforeFirstBrace route before → Prefix before template.

End RouteSpec.

(** ** patch-gateway.ts: the shards of a manager *)

Module Shards.

(** A shard of the manager as [patchCreateShard] deals with it: whether it
    carries the [patched] tag, and its [send]. *)
Record Shard (R : Type) : Type := {
  tagged : bool;
  send : Patches → value → list value → result R;
}.
Arguments tagged {R} _.
Arguments send {R} _.

(** The manager: [strategy.shards], a [Map] from shard id to shard, in
    insertion order; [None] when [strategy?.shards] is undefined. *)
Record Manager (R : Type) : Type := {
  shards : option (list (Z * Shard R));
}.
Arguments shards {R} _.

(** The body of the loop of lines 118-124 for one entry: a tagged shard is
    skipped; any other gets the debug message, the tag and the wrapped
    [send]. *)
Definition patchEntry {R} (entry : Z * Shard R) : (Z * Shard R) * list string :=
  if tagged entry.2 then (entry, [])
  else ((entry.1,
         {| tagged := true;
            send := λ p, Gateway.patchShardOutbound (send entry.2 p) p |}),
        ["patch-gateway: Patching shard with ID " +:+ pretty entry.1 +:+ "."]).

(** The loop: the shards after it and the debug messages it emits. *)
Fixpoint patchEntries {R} (l : list (Z * Shard R)) : list (Z * Shard R) * list string :=
  match l with
  | [] => ([], [])
  | entry :: l' =>
      let one := patchEntry entry in
      let others := patchEntries l' in
      (one.1 :: others.1, (one.2 ++ others.2)%list)
  end.

(** The function that [patchCreateShard] installs as
    [ws.updateShardCount]: the manager after the call and the
    [userbot-debug] messages emitted. *)
Definition patchCreateShard {R}
    (original : Manager R → list value → result (Manager R))
  : Manager R → list value → result (Manager R * list string) :=
  λ ws args,
    ws ← original ws args;
    match shards ws with
    | None => Throw (Thrown "discord.js internal API has changed")
    | Some l =>
        let patched := patchEntries l in
        Ok ({| shards := Some patched.1 |}, patched.2)
    end.

End Shards.

(** ** patch-gateway.ts as it hooked the shards of discord.js

    The second document of part_001: the wrappers go on [shard._send] and
    [shard.onPacket], which get the frame itself. *)

Module GatewayShard.

(** The function that [patchShardOutbound] installs as [shard._send]. *)
Definition patchShardOutbound {R} (original : value → list value → result R)
  : Patches → value → list value → result R :=
  λ p data args,
    data ← (if Js.isObject data && Js.hasProp data "op" then
              let opcode := Js.getProp data "op" in
              patch ← Gateway.packetPatch p opcode;
              Gateway.applyHook (patch ≫= packet_outbound) (contextOf p) data
            else Ok data);
    original data args.

(** The function that [patchShardInbound] installs as [shard.onPacket]. *)
Definition patchShardInbound {R} (original : value → list value → result R)
  : Patches → value → list value → result R :=
  λ p data args,
    data ← (if Js.isObject data && Js.hasProp data "op" then
              let opcode := Js.getProp data "op" in
              patch ← Gateway.packetPatch p opcode;
              data ← Gateway.applyHook (patch ≫= packet_inbound) (contextOf p) data;
              if Js.isNumber opcode Gateway.GatewayOpcodes_Dispatch then
                event ← Js.member data "t";
                patch ← Gateway.eventPatch p event;
                Gateway.applyHook (patch ≫= event_inbound) (contextOf p) data
              else Ok data
            else Ok data);
    original data args.

End GatewayShard.

(** ** Proof tools *)

Abbreviation esc := Rest.escapeRegExp.

(** Case analysis over the 256 characters. *)
Ltac by_char c :=
  destruct c as [[] [] [] [] [] [] [] []]; vm_compute; try reflexivity; try discriminate.

(** * Properties *)

Import JsString.

(** ** Characters *)

Lemma syntax_not_lower c : RegExp.isSyntaxChar c = true → Rest.isLower c = false.
Proof. by_char c. Qed.

Lemma syntax_not_colon c : RegExp.isSyntaxChar c = true → Ascii.eqb ":" c = false.
Proof. by_char c. Qed.

Lemma backslash_syntax c : Ascii.eqb "\" c = true → RegExp.isSyntaxChar c = true.
Proof. by_char c. Qed.

Lemma open_brace_syntax c : Ascii.eqb "{" c = true → RegExp.isSyntaxChar c = true.
Proof. by_char c. Qed.

Lemma close_brace_syntax c : Ascii.eqb "}" c = true → RegExp.isSyntaxChar c = true.
Proof. by_char c. Qed.

Lemma plain_parse_tests c :
  RegExp.isSyntaxChar c = false →
  Ascii.eqb c "\" = false ∧ Ascii.eqb c "[" = false ∧ Ascii.eqb c "^" = false.
Proof. by_char c; auto. Qed.

(** ** [escapeRegExp] and the placeholder scan *)

Lemma strip_colon_escape k :
  Rest.stripPrefix ":" (esc k) = esc <$> Rest.stripPrefix ":" k.
Proof.
  destruct k as [|d k]; [done|].
  cbn [esc]. destruct (RegExp.isSyntaxChar d) eqn:Hd; cbn [Rest.stripPrefix].
  - rewrite (syntax_not_colon d Hd). done.
  - destruct (Ascii.eqb ":" d); done.
Qed.

Lemma strip_open_escape key :
  Rest.stripPrefix "\{:" (esc key) = esc <$> Rest.stripPrefix "{:" key.
Proof.
  destruct key as [|c k]; [done|].
  cbn [esc]. destruct (RegExp.isSyntaxChar c) eqn:Hc.
  - change (Rest.stripPrefix "\{:" (String "\" (String c (esc k))))
      with (if Ascii.eqb "{" c then Rest.stripPrefix ":" (esc k) else None).
    change (Rest.stripPrefix "{:" (String c k))
      with (if Ascii.eqb "{" c then Rest.stripPrefix ":" k else None).
    destruct (Ascii.eqb "{" c); [apply strip_colon_escape | done].
  - cbn [Rest.stripPrefix].
    destruct (Ascii.eqb "\" c) eqn:E1.
    { apply backslash_syntax in E1. congruence. }
    destruct (Ascii.eqb "{" c) eqn:E2; [|done].
    apply open_brace_syntax in E2. congruence.
Qed.

Lemma strip_close_escape s :
  Rest.stripPrefix "\}" (esc s) = esc <$> Rest.stripPrefix "}" s.
Proof.
  destruct s as [|c k]; [done|].
  cbn [esc]. destruct (RegExp.isSyntaxChar c) eqn:Hc.
  - change (Rest.stripPrefix "\}" (String "\" (String c (esc k))))
      with (if Ascii.eqb "}" c then Some (esc k) else None).
    cbn [Rest.stripPrefix]. destruct (Ascii.eqb "}" c); done.
  - cbn [Rest.stripPrefix].
    destruct (Ascii.eqb "\" c) eqn:E1.
    { apply backslash_syntax in E1. congruence. }
    destruct (Ascii.eqb "}" c) eqn:E2; [|done].
    apply close_brace_syntax in E2. congruence.
Qed.

Lemma skipLower_escape s : Rest.skipLower (esc s) = esc (Rest.skipLower s).
Proof.
  induction s as [|c s IH]; [done|].
  cbn [esc Rest.skipLower]. destruct (RegExp.isSyntaxChar c) eqn:Hc.
  - rewrite (syntax_not_lower c Hc). cbn [Rest.skipLower esc].
    change (Rest.isLower "\") with false. cbv iota. by rewrite Hc.
  - cbn [Rest.skipLower]. destruct (Rest.isLower c); [done|].
    cbn [esc]. by rewrite Hc.
Qed.

(** The escaped placeholder is found in the escaped key exactly where the
    placeholder is in the key. *)
Lemma matchPlaceholder_escape key :
  Rest.matchPlaceholder "\{:" "\}" (esc key)
  = esc <$> Rest.matchPlaceholder "{:" "}" key.
Proof.
  unfold Rest.matchPlaceholder. rewrite strip_open_escape.
  destruct (Rest.stripPrefix "{:" key) as [[|c r]|]; try done.
  cbn [fmap option_fmap option_map esc].
  destruct (RegExp.isSyntaxChar c) eqn:Hc.
  - rewrite (syntax_not_lower c Hc). change (Rest.isLower "\") with false. done.
  - destruct (Rest.isLower c); [|done].
    rewrite skipLower_escape. apply strip_close_escape.
Qed.

(** A character that [escapeRegExp] put out is never a bare ['{']. *)
Lemma escape_no_bare_brace k : Rest.stripPrefix "{" (esc k) = None.
Proof.
  destruct k as [|d k]; [done|].
  cbn [esc]. destruct (RegExp.isSyntaxChar d) eqn:Hd; cbn [Rest.stripPrefix].
  - done.
  - destruct (Ascii.eqb "{" d) eqn:E; [|done].
    apply open_brace_syntax in E. congruence.
Qed.

Lemma matchPlaceholder_after_backslash c k :
  Rest.matchPlaceholder "\{:" "\}" (String c (esc k)) = None.
Proof.
  unfold Rest.matchPlaceholder.
  change (Rest.stripPrefix "\{:" (String c (esc k)))
    with (if Ascii.eqb "\" c
          then match esc k with
               | String b s' => if Ascii.eqb "{" b then Rest.stripPrefix ":" s' else None
               | "" => None
               end
          else None).
  destruct (Ascii.eqb "\" c); [|done].
  pose proof (escape_no_bare_brace k) as H. cbn [Rest.stripPrefix] in H.
  destruct (esc k) as [|b s']; [done|].
  destruct (Ascii.eqb "{" b); [discriminate|done].
Qed.

(** ** The replacement of the placeholders *)

Lemma stripPrefix_length p s r :
  Rest.stripPrefix p s = Some r → String.length s = String.length p + String.length r.
Proof.
  revert s; induction p as [|a p IH]; intros [|b s] H; cbn in H; simplify_eq; try done.
  destruct (Ascii.eqb a b); [|done]. cbn. f_equal. by apply IH.
Qed.

Lemma skipLower_length s :
  (String.length (Rest.skipLower s) ≤ String.length s)%nat.
Proof.
  induction s as [|c s IH]; cbn; [lia|]. destruct (Rest.isLower c); cbn; lia.
Qed.

Lemma matchPlaceholder_shorter o c s r :
  Rest.matchPlaceholder o c s = Some r → String.length r < String.length s.
Proof.
  unfold Rest.matchPlaceholder.
  destruct (Rest.stripPrefix o s) as [[|a t]|] eqn:Ho; try done.
  destruct (Rest.isLower a); [|done]. intros Hc.
  apply stripPrefix_length in Ho, Hc. pose proof (skipLower_length t).
  cbn in Ho. lia.
Qed.

(** More fuel than the length changes nothing. *)
Lemma replaceParameters_from_enough n m s :
  String.length s < n → String.length s < m →
  Rest.replaceParameters_from n s = Rest.replaceParameters_from m s.
Proof.
  revert m s. induction n as [|n IH]; intros [|m] s Hn Hm; try lia.
  cbn [Rest.replaceParameters_from].
  destruct (Rest.matchPlaceholder "\{:" "\}" s) as [r|] eqn:Hr.
  - apply matchPlaceholder_shorter in Hr. f_equal. apply IH; lia.
  - destruct s as [|c s]; [done|]. cbn in Hn, Hm. f_equal. apply IH; lia.
Qed.

Lemma replaceParameters_match s r :
  Rest.matchPlaceholder "\{:" "\}" s = Some r →
  Rest.replaceParameters s = "[^/]+" +:+ Rest.replaceParameters r.
Proof.
  intros Hr. unfold Rest.replaceParameters at 1.
  cbn [Rest.replaceParameters_from]. rewrite Hr. f_equal.
  apply matchPlaceholder_shorter in Hr.
  apply replaceParameters_from_enough; lia.
Qed.

Lemma replaceParameters_keep c s :
  Rest.matchPlaceholder "\{:" "\}" (String c s) = None →
  Rest.replaceParameters (String c s) = String c (Rest.replaceParameters s).
Proof.
  intros Hr. unfold Rest.replaceParameters at 1.
  cbn [Rest.replaceParameters_from]. by rewrite Hr.
Qed.

(** On the escaped key the replacement goes placeholder by placeholder. *)
Lemma replaceParameters_escape_placeholder key rest :
  Rest.matchPlaceholder "{:" "}" key = Some rest →
  Rest.replaceParameters (esc key) = "[^/]+" +:+ Rest.replaceParameters (esc rest).
Proof.
  intros H. apply replaceParameters_match.
  by rewrite matchPlaceholder_escape, H.
Qed.

Lemma replaceParameters_escape_literal c k :
  Rest.matchPlaceholder "{:" "}" (String c k) = None →
  Rest.replaceParameters (esc (String c k))
  = if RegExp.isSyntaxChar c
    then String "\" (String c (Rest.replaceParameters (esc k)))
    else String c (Rest.replaceParameters (esc k)).
Proof.
  intros H. pose proof (matchPlaceholder_escape (String c k)) as HE.
  rewrite H in HE. cbn [esc fmap option_fmap option_map] in HE |- *.
  destruct (RegExp.isSyntaxChar c).
  - rewrite (replaceParameters_keep _ _ HE). f_equal.
    apply replaceParameters_keep, matchPlaceholder_after_backslash.
  - by apply replaceParameters_keep.
Qed.

(** ** The fragment of regular expressions *)

Lemma parse_literal c src :
  RegExp.isSyntaxChar c = false →
  RegExp.parse (String c src) = cons (RegExp.AChar c) <$> RegExp.parse src.
Proof.
  intros Hc. destruct (plain_parse_tests c Hc) as (H1 & H2 & H3).
  cbn [RegExp.parse]. by rewrite H1, H2, H3, Hc.
Qed.

Lemma parse_escaped c src :
  RegExp.isSyntaxChar c = true →
  RegExp.parse (String "\" (String c src)) = cons (RegExp.AChar c) <$> RegExp.parse src.
Proof.
  intros Hc. cbn [RegExp.parse]. change (Ascii.eqb "\" "\") with true.
  cbv iota. by rewrite Hc.
Qed.

Lemma parse_class src :
  RegExp.parse ("[^/]+" +:+ src) = cons RegExp.ANotSlashPlus <$> RegExp.parse src.
Proof. reflexivity. Qed.

Lemma append_cons c (a b : string) : String c a +:+ b = String c (a +:+ b).
Proof. reflexivity. Qed.

Lemma append_assoc (a b c : string) : (a +:+ b) +:+ c = a +:+ (b +:+ c).
Proof. induction a as [|x a IH]; [done|]. by rewrite !append_cons, IH. Qed.

Lemma append_length (a b : string) :
  String.length (a +:+ b) = String.length a + String.length b.
Proof. induction a as [|c a IH]; [done|]. rewrite append_cons. cbn. by rewrite IH. Qed.

(** The repetition [[^/]+] followed by [re]: one or more characters other
    than ['/'], then [re]. *)
Lemma matchHere_class re b s :
  RegExp.matchHere (RegExp.ANotSlashPlus :: re) b s = true ↔
  ∃ w s', s = w +:+ s' ∧ w ≠ "" ∧ RouteSpec.noSlash w ∧
          RegExp.matchHere re false s' = true.
Proof.
  cbn [RegExp.matchHere].
  induction s as [|d s IH].
  - split; [done|]. intros (w & s' & Hs & Hw & _). destruct w; [done|discriminate].
  - rewrite andb_true_iff, orb_true_iff, negb_true_iff, IH. split.
    + intros [Hd [(w & s' & -> & Hw & Hn & Hm) | Hm]].
      * exists (String d w), s'. apply Ascii.eqb_neq in Hd. by repeat split.
      * exists (String d ""), s. apply Ascii.eqb_neq in Hd. by repeat split.
    + intros (w & s' & Hs & Hw & Hn & Hm).
      destruct w as [|c w]; [done|]. rewrite append_cons in Hs.
      injection Hs as -> ->.
      destruct Hn as [Hc Hn]. split.
      * by apply Ascii.eqb_neq.
      * destruct w as [|c' w].
        { right. exact Hm. }
        left. exists (String c' w), s'.
        split; [done|]. split; [done|]. split; [exact Hn|exact Hm].
Qed.

(** ** Placeholders in words *)

Lemma isLower_spec c : Rest.isLower c = true ↔ RouteSpec.lowerLetter c.
Proof.
  unfold Rest.isLower, RouteSpec.lowerLetter.
  rewrite andb_true_iff, !N.leb_le. done.
Qed.

Lemma stripPrefix_Some p s r : Rest.stripPrefix p s = Some r ↔ s = p +:+ r.
Proof.
  revert s. induction p as [|a p IH]; intros s.
  - change ("" +:+ r) with r. cbn [Rest.stripPrefix]. split; congruence.
  - rewrite append_cons. destruct s as [|b s]; cbn [Rest.stripPrefix]; [done|].
    destruct (Ascii.eqb a b) eqn:E.
    + apply Ascii.eqb_eq in E. subst b. rewrite IH. split; congruence.
    + apply Ascii.eqb_neq in E. split; [done|]. congruence.
Qed.

Lemma skipLower_run t :
  ∃ run, RouteSpec.allLower run ∧ t = run +:+ Rest.skipLower t.
Proof.
  induction t as [|c t (run & Hrun & Ht)]; [by exists ""|].
  cbn [Rest.skipLower]. destruct (Rest.isLower c) eqn:Hc.
  - exists (String c run). split; [split; [by apply isLower_spec|done]|].
    rewrite append_cons. congruence.
  - by exists "".
Qed.

Lemma skipLower_stop name c x :
  RouteSpec.allLower name → Rest.isLower c = false →
  Rest.skipLower (name +:+ String c x) = String c x.
Proof.
  intros Hname Hc. induction name as [|d name IH].
  - change ("" +:+ String c x) with (String c x). cbn [Rest.skipLower].
    by rewrite Hc.
  - destruct Hname as [Hd Hname]. rewrite append_cons. cbn [Rest.skipLower].
    apply isLower_spec in Hd. rewrite Hd. by apply IH.
Qed.

(** The scan of the code finds a placeholder exactly where the words say
    one is. *)
Lemma matchPlaceholder_spec s rest :
  Rest.matchPlaceholder "{:" "}" s = Some rest ↔ RouteSpec.Placeholder s rest.
Proof.
  unfold Rest.matchPlaceholder, RouteSpec.Placeholder. split.
  - destruct (Rest.stripPrefix "{:" s) as [[|c t]|] eqn:Ho; try done.
    destruct (Rest.isLower c) eqn:Hc; [|done]. intros Hclose.
    apply stripPrefix_Some in Ho, Hclose.
    destruct (skipLower_run t) as (run & Hrun & Ht). rewrite Hclose in Ht.
    exists (String c run). split; [done|].
    split; [split; [by apply isLower_spec|done]|].
    rewrite Ho, Ht. by rewrite append_cons.
  - intros (name & Hne & Hlow & ->). destruct name as [|c name]; [done|].
    destruct Hlow as [Hc Hlow]. apply isLower_spec in Hc.
    assert (Rest.stripPrefix "{:" ("{:" +:+ String c name +:+ "}" +:+ rest)
            = Some (String c (name +:+ String "}" rest))) as ->.
    { by apply stripPrefix_Some. }
    rewrite Hc, (skipLower_stop name "}" rest Hlow eq_refl).
    by apply stripPrefix_Some.
Qed.

Lemma matchPlaceholder_None s :
  Rest.matchPlaceholder "{:" "}" s = None ↔ ∀ rest, ¬ RouteSpec.Placeholder s rest.
Proof.
  split.
  - intros H rest HP. apply matchPlaceholder_spec in HP. congruence.
  - intros H. destruct (Rest.matchPlaceholder "{:" "}" s) as [rest|] eqn:E; [|done].
    apply matchPlaceholder_spec in E. by destruct (H rest).
Qed.

(** ** The guard in words *)

Lemma startsWith_spec s p : startsWith s p = true ↔ RouteSpec.Prefix p s.
Proof.
  unfold RouteSpec.Prefix. revert s. induction p as [|a p IH]; intros s.
  - destruct s; (split; [intros _; by eexists|done]).
  - destruct s as [|b s]; cbn [startsWith].
    + split; [done|]. intros [t Ht]. by rewrite append_cons in Ht.
    + rewrite andb_true_iff, IH. split.
      * intros [->%Ascii.eqb_eq [t ->]]. by exists t.
      * intros [t Ht]. rewrite append_cons in Ht. injection Ht as -> ->.
        split; [apply Ascii.eqb_refl|by exists t].
Qed.

(** [indexOf] finds the first occurrence or answers [-1]. *)
Lemma indexOf_spec s p :
  (indexOf s p = (-1)%Z ∧ ∀ a b, s ≠ a +:+ p +:+ b)
  ∨ (∃ before after,
       s = before +:+ p +:+ after ∧
       indexOf s p = Z.of_nat (String.length before) ∧
       ∀ a b, s = a +:+ p +:+ b →
              (String.length before ≤ String.length a)%nat).
Proof.
  induction s as [|c s IH]; cbn [indexOf];
    destruct (startsWith _ p) eqn:Hstart.
  - right. apply startsWith_spec in Hstart as [t Ht].
    exists "", t. split; [done|]. split; [done|]. intros; cbn; lia.
  - left. split; [done|]. intros a b Hab.
    destruct a; [|by rewrite append_cons in Hab].
    change ("" +:+ p +:+ b) with (p +:+ b) in Hab.
    assert (startsWith "" p = true) by (apply startsWith_spec; by exists b).
    congruence.
  - right. apply startsWith_spec in Hstart as [t Ht].
    exists "", t. split; [done|]. split; [done|]. intros; cbn; lia.
  - assert (∀ b, String c s ≠ p +:+ b) as Hhead.
    { intros b Hb.
      assert (startsWith (String c s) p = true)
        by (apply startsWith_spec; by exists b).
      congruence. }
    destruct IH as [[Hi Hnone]|(before & after & Hs & Hi & Hmin)]; rewrite Hi.
    + left. split; [done|]. intros a b Hab. destruct a as [|d a].
      * by apply (Hhead b).
      * rewrite append_cons in Hab. injection Hab as _ Hab.
        by apply (Hnone a b).
    + right. exists (String c before), after.
      split; [by rewrite append_cons, <- Hs|].
      split.
      { destruct (Z.ltb_spec (Z.of_nat (String.length before)) 0); [lia|].
        cbn [String.length]. lia. }
      intros a b Hab. destruct a as [|d a].
      * by destruct (Hhead b).
      * rewrite append_cons in Hab. injection Hab as _ Hab.
        cbn [String.length]. pose proof (Hmin a b Hab). lia.
Qed.

Lemma takeChars_append (a b : string) : takeChars (String.length a) (a +:+ b) = a.
Proof.
  induction a as [|c a IH]; [by destruct b|].
  rewrite append_cons. cbn [String.length takeChars]. by rewrite IH.
Qed.

Lemma substring_before (a b : string) :
  substring 0 (Z.of_nat (String.length a)) (a +:+ b) = a.
Proof.
  unfold substring. rewrite append_length.
  rewrite (Z.max_l 0 0), (Z.max_l (Z.of_nat (String.length a)) 0) by lia.
  rewrite (Z.min_l 0 _), (Z.min_l (Z.of_nat (String.length a)) _) by lia.
  rewrite (Z.min_l 0 _), (Z.max_r 0 _) by lia.
  rewrite Z.sub_0_r, Nat2Z.id. change (Z.to_nat 0) with 0%nat.
  change (dropChars 0 (a +:+ b)) with (a +:+ b)%string.
  apply takeChars_append.
Qed.

Lemma append_same_length (a b x y : string) :
  a +:+ x = b +:+ y → String.length a = String.length b → a = b.
Proof.
  revert b. induction a as [|c a IH]; intros [|d b] H Hlen; try done.
  rewrite !append_cons in H. injection H as -> H. cbn in Hlen.
  f_equal. apply IH; [done|lia].
Qed.

(** The guard of line 85 is the condition in words. *)
Lemma guard_spec route key :
  startsWith key (substring 0 (indexOf route "{:") route) = true
  ↔ RouteSpec.RoutePrefixInTemplate key route.
Proof.
  unfold RouteSpec.RoutePrefixInTemplate, RouteSpec.BeforeFirstBrace.
  destruct (indexOf_spec route "{:") as [[Hi Hnone]|(before & after & Hs & Hi & Hmin)];
    rewrite Hi.
  - split.
    + intros _ b [[a Ha] _]. by destruct (Hnone b a).
    + intros _. unfold substring.
      replace (Z.to_nat _) with 0%nat by lia. by destruct key.
  - rewrite Hs at 1. rewrite substring_before, startsWith_spec. split.
    + intros Hpre b [[a Ha] Hb].
      assert (b = before) as ->; [|done].
      rewrite Hs in Ha. symmetry in Ha.
      apply (append_same_length _ _ _ _ Ha).
      apply Nat.le_antisymm; [apply (Hb before after Hs)|].
      apply (Hmin b a). by rewrite Hs.
    + intros H. apply H. split; [by exists after|exact Hmin].
Qed.

(** ** The regular expression of a key *)

(** The source that [testParameterizedMatch] hands to [new RegExp] is in
    the fragment for every key, and what it matches at a position is the
    key with its placeholders instantiated. *)
Lemma keyRegex_parse key :
  ∃ re, RegExp.parse (Rest.replaceParameters (esc key)) = Some re ∧
        ∀ b s, RegExp.matchHere re b s = true ↔ RouteSpec.MatchesPrefix key s.
Proof.
  remember (String.length key) as n eqn:Hn. revert key Hn.
  induction n as [n IH] using lt_wf_ind. intros key ->.
  destruct (Rest.matchPlaceholder "{:" "}" key) as [rest|] eqn:Hkey.
  - pose proof (matchPlaceholder_shorter _ _ _ _ Hkey) as Hlt.
    destruct (IH _ Hlt rest eq_refl) as (re & Hparse & Hspec).
    exists (RegExp.ANotSlashPlus :: re).
    rewrite (replaceParameters_escape_placeholder _ _ Hkey), parse_class, Hparse.
    split; [done|]. intros b s. rewrite matchHere_class. split.
    + intros (w & s' & -> & Hw & Hns & Hm).
      apply Hspec in Hm as (p & r & -> & Hi).
      exists (w +:+ p), r. split; [by rewrite append_assoc|].
      eapply RouteSpec.inst_placeholder; [by apply matchPlaceholder_spec|done..].
    + intros (p & r & -> & Hi). inversion Hi as [|? ? ? ? HP|? ? ? HP]; subst.
      * discriminate.
      * apply matchPlaceholder_spec in HP. rewrite Hkey in HP. injection HP as <-.
        eexists _, _. split; [apply append_assoc|].
        split; [done|]. split; [done|]. apply Hspec. by eexists _, _.
      * apply matchPlaceholder_None in HP. congruence.
  - destruct key as [|c k].
    + exists []. split; [done|]. intros b s. split; [|done].
      intros _. exists "", s. split; [done|constructor].
    + destruct (IH (String.length k) (Nat.lt_succ_diag_r _) k eq_refl)
        as (re & Hparse & Hspec).
      exists (RegExp.AChar c :: re).
      rewrite (replaceParameters_escape_literal _ _ Hkey). split.
      { destruct (RegExp.isSyntaxChar c) eqn:Hc.
        - by rewrite (parse_escaped _ _ Hc), Hparse.
        - by rewrite (parse_literal _ _ Hc), Hparse. }
      intros b s. cbn [RegExp.matchHere]. split.
      * destruct s as [|d s]; [done|].
        rewrite andb_true_iff. intros [->%Ascii.eqb_eq Hm].
        apply Hspec in Hm as (p & r & -> & Hi).
        exists (String d p), r. split; [done|].
        apply RouteSpec.inst_literal; [by apply matchPlaceholder_None|done].
      * intros (p & r & -> & Hi). inversion Hi as [|? ? ? ? HP|]; subst.
        -- apply matchPlaceholder_spec in HP. congruence.
        -- rewrite append_cons, Ascii.eqb_refl. apply Hspec. by eexists _, _.
Qed.

Lemma searchFrom_anchored re s :
  RegExp.searchFrom (RegExp.AStart :: re) false s = false.
Proof. induction s as [|c s IH]; [done|]. cbn. exact IH. Qed.

(** With the anchor in front only index 0 can match. *)
Lemma test_anchored re s :
  RegExp.test (RegExp.AStart :: re) s = RegExp.matchHere re true s.
Proof.
  unfold RegExp.test. destruct s as [|c s]; cbn [RegExp.searchFrom].
  - cbn. by rewrite orb_false_r.
  - rewrite searchFrom_anchored. cbn [RegExp.matchHere]. by rewrite orb_false_r.
Qed.

Lemma keyRegex_compile key :
  ∃ re, RegExp.compile ("^" +:+ Rest.replaceParameters (esc key)) = Ok re ∧
        ∀ route, RegExp.test re route = true ↔ RouteSpec.MatchesPrefix key route.
Proof.
  destruct (keyRegex_parse key) as (re & Hparse & Hspec).
  exists (RegExp.AStart :: re). unfold RegExp.compile.
  change (RegExp.parse ("^" +:+ Rest.replaceParameters (esc key)))
    with (cons RegExp.AStart <$> RegExp.parse (Rest.replaceParameters (esc key))).
  rewrite Hparse. split; [done|]. intros route. by rewrite test_anchored.
Qed.

(** ** [testParameterizedMatch] *)

Lemma REGEX_PARAMETER_test_spec key :
  Rest.REGEX_PARAMETER_test key = true ↔ RouteSpec.HasPlaceholder key.
Proof.
  induction key as [|c k IH]; cbn [Rest.REGEX_PARAMETER_test].
  - split; [done|]. intros (b & a & r & Hk & Hm).
    destruct b; [|done]. change ("" +:+ a) with a in Hk. subst a.
    by apply matchPlaceholder_spec in Hm.
  - rewrite orb_true_iff, bool_decide_eq_true, IH. split.
    + intros [[r Hr] | (b & a & r & -> & Hm)].
      * apply matchPlaceholder_spec in Hr. by exists "", (String c k), r.
      * by exists (String c b), a, r.
    + intros (b & a & r & Hk & Hm). destruct b as [|c' b].
      * change ("" +:+ a) with a in Hk. subst a. left.
        apply matchPlaceholder_spec in Hm. by exists r.
      * rewrite append_cons in Hk. injection Hk as -> ->.
        right. by exists b, a, r.
Qed.

(** [testParameterizedMatch] returns for every route and key, and it
    returns [true] exactly when the key has a placeholder, passes the guard
    of line 85, and matches a prefix of the route. *)
Lemma testParameterizedMatch_decides route key :
  ∃ b, Rest.testParameterizedMatch route key = Ok b ∧
       (b = true ↔
        RouteSpec.HasPlaceholder key ∧
        RouteSpec.RoutePrefixInTemplate key route ∧
        RouteSpec.MatchesPrefix key route).
Proof.
  unfold Rest.testParameterizedMatch.
  setoid_rewrite <- REGEX_PARAMETER_test_spec.
  setoid_rewrite <- guard_spec.
  destruct (Rest.REGEX_PARAMETER_test key); cbn [negb].
  2: { exists false. split; [done|]. by intros; split; [|intros []]. }
  destruct (startsWith key _); cbn [negb].
  2: { exists false. split; [done|]. split; [done|]. by intros (_ & ? & _). }
  destruct (keyRegex_compile key) as (re & -> & Hre).
  exists (RegExp.test re route). split; [done|]. rewrite Hre. tauto.
Qed.

(** A route that contains no ["{:"] passes the guard whatever the key. *)
Lemma guard_without_brace route key :
  (∀ a b, route ≠ a +:+ "{:" +:+ b) → RouteSpec.RoutePrefixInTemplate key route.
Proof. intros Hnone before [[after Hr] _]. by destruct (Hnone before after). Qed.



(** ** Installation *)

(** [userbot] on a fresh client: the REST wrappers go in first and the
    user-agent wrapper goes around them. *)
Lemma userbot_unpatched rq rs :
  userbot (unpatched rq rs)
  = Ok {| patches := defaultPatches;
          authPrefix := "Bearer";
          request := Rest.patchRequest (λ _, rq);
          resolveRequest :=
            UserAgent.wrapResolveRequest (Rest.patchResolveRequest (λ _, rs));
          ws_internal := true |}.
Proof. reflexivity. Qed.

(** ** Route lookup *)

Lemma firstParameterized_spec route entries :
  ∃ found,
    Rest.firstParameterized route entries = Ok found ∧
    match found with
    | Some patch =>
        ∃ before key after,
          entries = (before ++ (key, patch) :: after)%list ∧
          Rest.testParameterizedMatch route key = Ok true ∧
          Forall (λ e, Rest.testParameterizedMatch route e.1 = Ok false) before
    | None =>
        Forall (λ e, Rest.testParameterizedMatch route e.1 = Ok false) entries
    end.
Proof.
  induction entries as [|[key val] entries IH].
  - exists None. by split.
  - cbn [Rest.firstParameterized].
    destruct (testParameterizedMatch_decides route key) as ([] & Hb & _);
      rewrite Hb; cbn [mbind result_bind].
    + exists (Some val). split; [done|]. by exists [], key, entries.
    + destruct IH as ([patch|] & -> & IH).
      * exists (Some patch). split; [done|].
        destruct IH as (before & k & after & -> & Hk & Hbefore).
        exists ((key, val) :: before), k, after.
        split; [done|]. split; [done|]. by constructor.
      * exists None. split; [done|]. by constructor.
Qed.

(** C4: the lookup returns for every route and every map; it gives the
    patch stored under the route itself when there is one, otherwise the
    patch of the first entry, in insertion order, whose key
    [testParameterizedMatch] accepts, otherwise none. An exact key wins over
    a matching template that was inserted before it. *)
Theorem lookupPatch_exact_then_first :
  (∀ route (routes : Map.t RoutePatch),
     ∃ found,
       Rest.lookupPatch route routes = Ok found ∧
       match Map.get route routes with
       | Some patch => found = Some patch
       | None =>
           match found with
           | Some patch =>
               ∃ before key after,
                 Map.entries routes = (before ++ (key, patch) :: after)%list ∧
                 Rest.testParameterizedMatch route key = Ok true ∧
                 Forall (λ e, Rest.testParameterizedMatch route e.1 = Ok false)
                        before
           | None =>
               Forall (λ e, Rest.testParameterizedMatch route e.1 = Ok false)
                      (Map.entries routes)
           end
       end)
  ∧ (∀ template exact : RoutePatch,
       Rest.testParameterizedMatch "/users/42/" "/users/{:id}/" = Ok true ∧
       Rest.lookupPatch "/users/42/"
         (Map.set "/users/42/" exact (Map.set "/users/{:id}/" template []))
       = Ok (Some exact)).
Proof.
  split.
  - intros route routes. unfold Rest.lookupPatch.
    destruct (Map.get route routes) as [patch|].
    + by exists (Some patch).
    + apply firstParameterized_spec.
  - intros template exact. split; reflexivity.
Qed.

(** ** Header normalization *)

Lemma split_nonempty sep s : split sep s ≠ [].
Proof.
  destruct s as [|c s]; [done|]. cbn [split].
  destruct (Ascii.eqb c sep); [done|]. by destruct (split sep s).
Qed.

Lemma split_append sep a b :
  lacks sep a = true → split sep (a +:+ String sep b) = a :: split sep b.
Proof.
  induction a as [|c a IH]; intros Ha.
  - change ("" +:+ String sep b) with (String sep b).
    cbn [split]. by rewrite Ascii.eqb_refl.
  - cbn [lacks] in Ha. apply andb_true_iff in Ha as [Hc Ha].
    rewrite append_cons. cbn [split].
    apply negb_true_iff in Hc. by rewrite Hc, (IH Ha).
Qed.

(** A string with a separator in it splits into two pieces at least. *)
Lemma split_two sep s :
  lacks sep s = false → ∃ a b rest, split sep s = a :: b :: rest.
Proof.
  induction s as [|c s IH]; [done|]. cbn [lacks split]. intros H.
  destruct (Ascii.eqb c sep); cbn [negb andb] in H.
  - pose proof (split_nonempty sep s).
    destruct (split sep s) as [|b rest] eqn:E; [done|]. by exists "", b, rest.
  - destruct (IH H) as (a & b & rest & ->). by exists (String c a), b, rest.
Qed.

Lemma headerEntry_total header :
  lacks ":" header = false → ∃ e, UserAgent.headerEntry header = Ok e.
Proof.
  intros H. destruct (split_two _ _ H) as (a & b & rest & Hs).
  unfold UserAgent.headerEntry, splitLimit. rewrite Hs. by eexists.
Qed.

(** Only the first two pieces of the split survive: the value ends at its
    first colon. *)
Lemma headerEntry_truncates name v tail :
  lacks ":" name = true → lacks ":" v = true →
  UserAgent.headerEntry (name +:+ ":" +:+ v +:+ ":" +:+ tail)
  = Ok (name, trimStart v).
Proof.
  intros Hn Hv. unfold UserAgent.headerEntry, splitLimit.
  change (name +:+ ":" +:+ v +:+ ":" +:+ tail)
    with (name +:+ String ":" (v +:+ String ":" tail)).
  by rewrite (split_append _ _ _ Hn), (split_append _ _ _ Hv).
Qed.

Lemma trimStart_append_colon v tail :
  trimStart (v +:+ ":" +:+ tail) = trimStart v +:+ ":" +:+ tail.
Proof.
  induction v as [|c v IH]; [done|].
  rewrite append_cons. cbn [trimStart]. by destruct (isWhiteSpace c).
Qed.

Lemma mapM_Ok {A B} (f : A → result B) l out :
  mapM f l = Ok out ↔ Forall2 (λ x y, f x = Ok y) l out.
Proof.
  revert out. induction l as [|x l IH]; intros out; cbn [mapM].
  - split; [intros [= <-]; constructor | by inversion 1].
  - split.
    + destruct (f x) as [y|] eqn:Hx; [|done]. cbn [mbind result_bind].
      destruct (mapM f l) as [ys|] eqn:Hl; [|done]. intros [= <-].
      constructor; [done|]. by apply IH.
    + inversion 1 as [|? y ? ys Hx Hl]; subst. rewrite Hx.
      apply IH in Hl. cbn [mbind result_bind]. by rewrite Hl.
Qed.

Lemma mapM_total {A B} (f : A → result B) l :
  Forall (λ x, ∃ y, f x = Ok y) l → ∃ out, mapM f l = Ok out.
Proof.
  induction 1 as [|x l [y Hy] _ [ys IH]]; [by exists []|].
  exists (y :: ys). cbn [mapM]. by rewrite Hy, IH.
Qed.

Lemma fromEntries_other (m : gmap string string) entries name :
  Forall (λ e : string * string, e.1 ≠ name) entries →
  foldl (λ m e, <[e.1 := e.2]> m) m entries !! name = m !! name.
Proof.
  revert m. induction entries as [|e entries IH]; intros m H; [done|].
  inversion H; subst. cbn [foldl]. rewrite IH by done.
  by apply lookup_insert_ne.
Qed.

(** C1, as the code has it: normalization of the two example headers yields
    the mapping from [Content-Type] to [application/json] and from
    [Authorization] to [Bearer xyz] (leading whitespace trimmed, the
    [Bearer ] prefix kept), whichever of the two headers comes first. *)
Theorem normalizeHeaders_example :
  UserAgent.normalizeHeaders
    ["Content-Type: application/json"; "Authorization: Bearer xyz"]
  = Ok (<["Content-Type" := "application/json"]>
          (<["Authorization" := "Bearer xyz"]> ∅))
  ∧ UserAgent.normalizeHeaders
      ["Authorization: Bearer xyz"; "Content-Type: application/json"]
    = Ok (<["Content-Type" := "application/json"]>
            (<["Authorization" := "Bearer xyz"]> ∅)).
Proof.
  split; vm_compute; f_equal.
Qed.

(** C1 as stated fails: the normalized [Authorization] value is
    [Bearer xyz], not [xyz]. *)
Lemma normalizeHeaders_keeps_bearer :
  UserAgent.normalizeHeaders
    ["Content-Type: application/json"; "Authorization: Bearer xyz"]
  ≠ Ok (<["Content-Type" := "application/json"]>
          (<["Authorization" := "xyz"]> ∅)).
Proof.
  intros H.
  apply (f_equal (λ r, match r with
                       | Ok m => m !! "Authorization"
                       | Throw _ => None
                       end)) in H.
  vm_compute in H. discriminate.
Qed.

(** C9: in a header list whose members all contain a colon, a header
    [name:v:tail] (no colon in [name] or [v]) that no later header
    overrides is normalized to the value [v] trimmed: what follows the first
    colon of the value is dropped, so the result is not the trimmed full
    value [v:tail]. *)
Theorem normalizeHeaders_truncates_at_colon before after name v tail :
  lacks ":" name = true → lacks ":" v = true →
  Forall (λ h, lacks ":" h = false) before →
  Forall (λ h, lacks ":" h = false) after →
  Forall (λ h, ∀ e, UserAgent.headerEntry h = Ok e → e.1 ≠ name) after →
  ∃ fields,
    UserAgent.normalizeHeaders
      (before ++ (name +:+ ":" +:+ v +:+ ":" +:+ tail) :: after)%list
    = Ok fields
    ∧ fields !! name = Some (trimStart v)
    ∧ trimStart v ≠ trimStart (v +:+ ":" +:+ tail).
Proof.
  intros Hn Hv Hbefore Hafter Hnames.
  pose proof (headerEntry_truncates name v tail Hn Hv) as Hentry.
  destruct (mapM_total UserAgent.headerEntry
              (before ++ (name +:+ ":" +:+ v +:+ ":" +:+ tail) :: after)%list)
    as [entries Hentries].
  { apply Forall_app. split.
    - eapply Forall_impl; [exact Hbefore|]. apply headerEntry_total.
    - constructor; [by eexists|].
      eapply Forall_impl; [exact Hafter|]. apply headerEntry_total. }
  exists (UserAgent.fromEntries entries).
  unfold UserAgent.normalizeHeaders. rewrite Hentries. split; [done|]. split.
  - apply mapM_Ok in Hentries.
    apply Forall2_app_inv_l in Hentries as (es1 & es2 & _ & H2 & ->).
    inversion H2 as [|? e ? es3 He H3]; subst.
    rewrite Hentry in He. injection He as <-.
    unfold UserAgent.fromEntries. rewrite foldl_app. cbn [foldl fst snd].
    rewrite fromEntries_other; [apply lookup_insert_eq|].
    clear -Hnames H3. induction H3 as [|h e hs es He _ IH]; [constructor|].
    inversion Hnames; subst. constructor; auto.
  - rewrite trimStart_append_colon. intros H.
    apply (f_equal String.length) in H. rewrite append_length in H.
    change (String.length (":" +:+ tail)) with (S (String.length tail)) in H. lia.
Qed.

(** C9 at the header ["Referer: https://x"]. *)
Lemma normalizeHeaders_truncates_referer :
  ∃ fields,
    UserAgent.normalizeHeaders ["Referer: https://x"] = Ok fields
    ∧ fields !! "Referer" = Some "https"
    ∧ "https" ≠ "https://x".
Proof.
  apply (normalizeHeaders_truncates_at_colon [] [] "Referer" " https" "//x");
    [reflexivity | reflexivity | constructor | constructor | constructor].
Defined.

(** ** Property lists *)

Lemma assoc_assign_eq {A} k (x : A) l : Js.assoc k (Js.assign k x l) = Some x.
Proof.
  induction l as [|[k' y] l IH]; cbn [Js.assign Js.assoc].
  - by rewrite String.eqb_refl.
  - destruct (String.eqb k' k) eqn:E; cbn [Js.assoc]; by rewrite E.
Qed.

Lemma assoc_assign_ne {A} k k' (x : A) l :
  k ≠ k' → Js.assoc k (Js.assign k' x l) = Js.assoc k l.
Proof.
  intros Hne. induction l as [|[k'' y] l IH]; cbn [Js.assign Js.assoc].
  - destruct (String.eqb k' k) eqn:E; [|done].
    apply String.eqb_eq in E. congruence.
  - destruct (String.eqb k'' k') eqn:E; cbn [Js.assoc]; [|by rewrite IH].
    apply String.eqb_eq in E. subst k''.
    destruct (String.eqb k' k) eqn:E'; [|done].
    apply String.eqb_eq in E'. congruence.
Qed.

Lemma assoc_None_notin {A} k (l : list (string * A)) :
  Js.assoc k l = None ↔ k ∉ l.*1.
Proof.
  induction l as [|[k' y] l IH]; cbn [Js.assoc fmap list_fmap fst].
  - split; [intros _; apply not_elem_of_nil | done].
  - rewrite not_elem_of_cons. destruct (String.eqb k' k) eqn:E.
    + apply String.eqb_eq in E. split; [done|]. by intros [? _].
    + apply String.eqb_neq in E. rewrite IH.
      split; [intros ?; split; [congruence|done] | by intros [_ ?]].
Qed.

(** A property that [v] lacks keeps the value it has in [base]. *)
Lemma spreadOver_base base v k :
  Js.assoc k (Js.ownProps v) = None →
  Js.assoc k (Js.spreadOver base v) = Js.assoc k base.
Proof.
  unfold Js.spreadOver. generalize (Js.ownProps v) as props.
  intros props. revert base.
  induction props as [|[k' y] props IH]; intros base H; [done|].
  cbn [Js.assoc] in H. destruct (String.eqb k' k) eqn:E; [done|].
  apply String.eqb_neq in E. cbn [foldl fst snd].
  rewrite (IH _ H). by apply assoc_assign_ne.
Qed.

(** A property of [v] comes out with the value it has in [v]. *)
Lemma spreadOver_own base v k x :
  NoDup (Js.ownProps v).*1 →
  Js.assoc k (Js.ownProps v) = Some x →
  Js.assoc k (Js.spreadOver base v) = Some x.
Proof.
  unfold Js.spreadOver. generalize (Js.ownProps v) as props.
  intros props. revert base.
  induction props as [|[k' y] props IH]; intros base Hnd H; [done|].
  cbn [fmap list_fmap fst] in Hnd. apply NoDup_cons in Hnd as [Hk' Hnd].
  cbn [Js.assoc] in H. cbn [foldl fst snd].
  destruct (String.eqb k' k) eqn:E.
  - apply String.eqb_eq in E. subst k'. injection H as ->.
    apply assoc_None_notin in Hk'.
    pose proof (spreadOver_base (Js.assign k x base) (VObj props) k Hk') as Hs.
    unfold Js.spreadOver in Hs. cbn [Js.ownProps] in Hs.
    rewrite Hs. apply assoc_assign_eq.
  - by apply IH.
Qed.

Lemma hasProp_false v k :
  Js.hasProp v k = false → Js.assoc k (Js.ownProps v) = None.
Proof.
  unfold Js.hasProp. intros H%bool_decide_eq_false.
  destruct (Js.assoc k (Js.ownProps v)); [|done]. by destruct H.
Qed.

(** ** The gateway-bot route *)

(** C6: on a client patched by [userbot], a request for the gateway-bot
    route reaches the underlying [request] as the same request with its
    [fullRoute] replaced by the gateway route; when the response it gets
    has neither [shards] nor [session_start_limit], the result has [shards]
    1 and a [session_start_limit] with [remaining] 1 and [max_concurrency]
    1, and every property of the response is in it with its value. *)
Theorem gatewayBot_request rq rs options args res :
  fullRoute options = Rest.Routes_gatewayBot →
  rq {| fullRoute := Rest.Routes_gateway;
        requestOthers := requestOthers options |} args = Ok res →
  NoDup (Js.ownProps res).*1 →
  Js.hasProp res "shards" = false →
  Js.hasProp res "session_start_limit" = false →
  ∃ c1 out,
    userbot (unpatched rq rs) = Ok c1
    ∧ call_request c1 options args
      = (r ← rq {| fullRoute := Rest.Routes_gateway;
                   requestOthers := requestOthers options |} args;
         Rest.gatewayBot_post (contextOf (patches c1))
           {| fullRoute := Rest.Routes_gateway;
              requestOthers := requestOthers options |} r)
    ∧ call_request c1 options args = Ok out
    ∧ Js.getProp out "shards" = VNum 1
    ∧ Js.getProp (Js.getProp out "session_start_limit") "remaining" = VNum 1
    ∧ Js.getProp (Js.getProp out "session_start_limit") "max_concurrency" = VNum 1
    ∧ ∀ k x, Js.assoc k (Js.ownProps res) = Some x →
             Js.assoc k (Js.ownProps out) = Some x.
Proof.
  intros Hroute Hres Hnd Hshards Hlimit.
  apply hasProp_false in Hshards, Hlimit.
  eexists _, _. split; [apply userbot_unpatched|].
  assert (call_request
            {| patches := defaultPatches; authPrefix := "Bearer";
               request := Rest.patchRequest (λ _, rq);
               resolveRequest :=
                 UserAgent.wrapResolveRequest (Rest.patchResolveRequest (λ _, rs));
               ws_internal := true |} options args
          = (r ← rq {| fullRoute := Rest.Routes_gateway;
                       requestOthers := requestOthers options |} args;
             Rest.gatewayBot_post (contextOf defaultPatches)
               {| fullRoute := Rest.Routes_gateway;
                  requestOthers := requestOthers options |} r)) as Hcall.
  { unfold call_request, Rest.patchRequest. cbn [request patches].
    rewrite Hroute. reflexivity. }
  split; [exact Hcall|]. rewrite Hcall, Hres.
  split; [reflexivity|].
  unfold Js.getProp. cbn [Js.ownProps].
  rewrite !spreadOver_base by done.
  repeat split. intros k x Hk. by apply spreadOver_own.
Qed.

(** C6 at an underlying [request] that answers with the route it was
    asked for and the body it was given: the route it sees is the gateway
    route, the body is the caller's, and both come back beside the
    synthesized fields. *)
Lemma gatewayBot_request_example :
  ∃ c1 out,
    userbot (unpatched
               (λ o _, Ok (VObj [("route", VStr (fullRoute o));
                                 ("body", requestOthers o)]))
               (λ _ _, Throw TypeError)) = Ok c1
    ∧ call_request c1 {| fullRoute := "/gateway/bot"; requestOthers := VStr "GET" |} []
      = Ok out
    ∧ out = VObj [("shards", VNum 1);
                  ("session_start_limit",
                   VObj [("total", VNum 1); ("remaining", VNum 1);
                         ("reset_after", VNum 14400000);
                         ("max_concurrency", VNum 1)]);
                  ("route", VStr "/gateway");
                  ("body", VStr "GET")]
    ∧ Js.getProp out "shards" = VNum 1
    ∧ Js.getProp out "route" = VStr "/gateway".
Proof.
  destruct (gatewayBot_request
              (λ o _, Ok (VObj [("route", VStr (fullRoute o));
                                ("body", requestOthers o)]))
              (λ _ _, Throw TypeError)
              {| fullRoute := "/gateway/bot"; requestOthers := VStr "GET" |} []
              (VObj [("route", VStr "/gateway"); ("body", VStr "GET")]))
    as (c1 & out & Hc1 & Hsent & Hout & Hshards & _ & _ & Hkeep);
    [reflexivity | reflexivity | | reflexivity | reflexivity |].
  - cbn. apply NoDup_cons. split; [|apply NoDup_singleton].
    intros H%list_elem_of_singleton. discriminate.
  - exists c1, out. split; [exact Hc1|]. split; [exact Hout|].
    split; [|split; [exact Hshards|]].
    + rewrite Hsent in Hout. injection Hout as <-. reflexivity.
    + unfold Js.getProp. by rewrite (Hkeep "route" (VStr "/gateway")).
Defined.

(** ** The resolve hooks *)

Lemma lookupPatch_users_default route :
  Rest.testParameterizedMatch route "/users/{:id}/" = Ok true →
  Rest.lookupPatch route Rest.createDefaults
  = Ok (Some {| redirect := None; pre := None; post := None;
                resolve := Some Rest.users_resolve |}).
Proof.
  intros Hm. unfold Rest.lookupPatch, Map.get.
  change Rest.createDefaults with Rest.DEFAULT_ROUTE_PATCHES.
  unfold Rest.DEFAULT_ROUTE_PATCHES. cbn [Js.assoc].
  destruct (String.eqb Rest.Routes_gatewayBot route) eqn:E1.
  { apply String.eqb_eq in E1. subst route. vm_compute in Hm. discriminate. }
  destruct (String.eqb "/users/{:id}/" route) eqn:E2; [done|].
  cbn [Map.entries Rest.firstParameterized]. by rewrite Hm.
Qed.

(** C2, as the code has it: on a client patched by [userbot] the resolve
    hook of the route runs first, on the resolved request just as the
    underlying [resolveRequest] returned it, with no normalization before
    it; the user-agent wrapper runs on what the hook returns, and when that
    carries its headers as a name-to-value mapping the emitted request
    carries the same mapping with [User-Agent] set to the configured value
    and every other entry as it was. *)
Theorem resolveRequest_hook_then_userAgent
    rq rs (p : Patches) config ua options args patch res hooked fields :
  patches_rest p = Some config →
  patches_userAgent p = Some ua →
  Rest.lookupPatch (fullRoute options) (routes config) = Ok patch →
  rs options args = Ok res →
  match patch ≫= resolve with
  | Some hook => hook (contextOf p) options res
  | None => Ok res
  end = Ok hooked →
  headers (fetchOptions hooked) = HeaderObject fields →
  ∃ c1,
    userbot (unpatched rq rs) = Ok c1
    ∧ resolveRequest c1 p options args
      = Ok (with_headers (HeaderObject (<["User-Agent" := value_ ua]> fields)) hooked)
    ∧ (<["User-Agent" := value_ ua]> fields) !! "User-Agent" = Some (value_ ua)
    ∧ ∀ name, name ≠ "User-Agent" →
        (<["User-Agent" := value_ ua]> fields) !! name = fields !! name.
Proof.
  intros Hrest Hua Hpatch Hres Hhook Hfields.
  eexists. split; [apply userbot_unpatched|]. split; [|split].
  - cbn [resolveRequest].
    unfold UserAgent.wrapResolveRequest, Rest.patchResolveRequest.
    rewrite Hrest. cbn [slot mbind result_bind]. rewrite Hpatch, Hres.
    cbn [mbind result_bind]. rewrite Hhook. cbn [mbind result_bind].
    unfold UserAgent.normalizeStep, UserAgent.injectStep.
    rewrite Hfields. cbn [mbind result_bind]. by rewrite Hua.
  - apply lookup_insert_eq.
  - intros name Hname. by apply lookup_insert_ne.
Qed.

(** C2 at a per-user route whose headers arrive as a mapping. *)
Lemma resolveRequest_hook_then_userAgent_example :
  ∃ c1,
    userbot (unpatched
               (λ _ _, Ok VNull)
               (λ _ _, Ok {| url := "https://discord.com/api/users/42/";
                             fetchOptions :=
                               {| headers := HeaderObject {[ "Authorization" := "Bearer xyz" ]};
                                  fetchOthers := VNull |} |})) = Ok c1
    ∧ call_resolveRequest c1 {| fullRoute := "/users/42/"; requestOthers := VNull |} []
      = Ok {| url := "https://discord.com/api/users/42/";
              fetchOptions :=
                {| headers :=
                     HeaderObject
                       (<["User-Agent" := UserAgent.DEFAULT_USER_AGENT]>
                          (<["Authorization" := "xyz"]>
                             {[ "Authorization" := "Bearer xyz" ]}));
                   fetchOthers := VNull |} |}.
Proof.
  edestruct (resolveRequest_hook_then_userAgent
               (λ _ _, Ok VNull)
               (λ _ _, Ok {| url := "https://discord.com/api/users/42/";
                             fetchOptions :=
                               {| headers := HeaderObject {[ "Authorization" := "Bearer xyz" ]};
                                  fetchOthers := VNull |} |})
               defaultPatches {| routes := Rest.createDefaults |}
               {| value_ := UserAgent.DEFAULT_USER_AGENT |}
               {| fullRoute := "/users/42/"; requestOthers := VNull |} [])
    as (c1 & Hc1 & Hcall & _);
    [reflexivity | reflexivity | reflexivity | reflexivity | reflexivity
    | reflexivity |].
  exists c1. split; [exact Hc1|].
  injection Hc1 as <-. exact Hcall.
Defined.

(** C2 as stated fails when the headers arrive as a list. On the per-user
    route the default hook gets the list itself, finds no [Authorization]
    member on it and throws; on a route without a patch the request comes
    back with the list it came with. *)
Lemma resolveRequest_list_not_normalized :
  ∃ c1,
    userbot (unpatched
               (λ _ _, Ok VNull)
               (λ _ _, Ok {| url := "https://discord.com/api";
                             fetchOptions :=
                               {| headers := HeaderList ["Authorization: Bearer xyz"];
                                  fetchOthers := VNull |} |})) = Ok c1
    ∧ call_resolveRequest c1 {| fullRoute := "/users/42/"; requestOthers := VNull |} []
      = Throw TypeError
    ∧ call_resolveRequest c1 {| fullRoute := "/channels/1"; requestOthers := VNull |} []
      = Ok {| url := "https://discord.com/api";
              fetchOptions :=
                {| headers := HeaderList ["Authorization: Bearer xyz"];
                   fetchOthers := VNull |} |}.
Proof.
  eexists. split; [apply userbot_unpatched|]. split; reflexivity.
Qed.

(** C10: on a client patched by [userbot], a resolve for a route that the
    per-user template matches throws a [TypeError] whenever the underlying
    resolved request does not carry its headers as a mapping with an
    [Authorization] entry: the default hook throws it, and it comes out of
    [resolveRequest]. *)
Theorem users_resolve_needs_authorization rq rs options args res :
  Rest.testParameterizedMatch (fullRoute options) "/users/{:id}/" = Ok true →
  rs options args = Ok res →
  (∀ fields, headers (fetchOptions res) = HeaderObject fields →
             fields !! "Authorization" = None) →
  ∃ c1,
    userbot (unpatched rq rs) = Ok c1
    ∧ Rest.users_resolve (contextOf (patches c1)) options res = Throw TypeError
    ∧ call_resolveRequest c1 options args = Throw TypeError.
Proof.
  intros Hm Hres Hheaders.
  eexists. split; [apply userbot_unpatched|].
  assert (∀ ctx, Rest.users_resolve ctx options res = Throw TypeError) as Hhook.
  { intros ctx. unfold Rest.users_resolve.
    destruct (headers (fetchOptions res)) as [| |fields]; try done.
    by rewrite (Hheaders fields eq_refl). }
  split; [apply Hhook|].
  unfold call_resolveRequest. cbn [resolveRequest patches].
  unfold UserAgent.wrapResolveRequest, Rest.patchResolveRequest.
  cbn [defaultPatches patches_rest slot mbind result_bind routes].
  rewrite (lookupPatch_users_default _ Hm), Hres.
  cbn [mbind result_bind option_bind resolve]. by rewrite Hhook.
Qed.

(** C10 at headers that are still a list, and at a mapping without
    [Authorization]. *)
Lemma users_resolve_needs_authorization_example :
  (∃ c1,
     userbot (unpatched
                (λ _ _, Ok VNull)
                (λ _ _, Ok {| url := "";
                              fetchOptions :=
                                {| headers := HeaderList ["Authorization: Bearer xyz"];
                                   fetchOthers := VNull |} |})) = Ok c1
     ∧ call_resolveRequest c1 {| fullRoute := "/users/42/"; requestOthers := VNull |} []
       = Throw TypeError)
  ∧ (∃ c1,
       userbot (unpatched
                  (λ _ _, Ok VNull)
                  (λ _ _, Ok {| url := "";
                                fetchOptions :=
                                  {| headers := HeaderObject {[ "Accept" := "*/*" ]};
                                     fetchOthers := VNull |} |})) = Ok c1
       ∧ call_resolveRequest c1 {| fullRoute := "/users/42/"; requestOthers := VNull |} []
         = Throw TypeError).
Proof.
  split.
  - edestruct (users_resolve_needs_authorization
                 (λ _ _, Ok VNull)
                 (λ _ _, Ok {| url := "";
                               fetchOptions :=
                                 {| headers := HeaderList ["Authorization: Bearer xyz"];
                                    fetchOthers := VNull |} |})
                 {| fullRoute := "/users/42/"; requestOthers := VNull |} [])
      as (c1 & Hc1 & _ & Hcall); [reflexivity | reflexivity | | by exists c1].
    intros fields. discriminate.
  - edestruct (users_resolve_needs_authorization
                 (λ _ _, Ok VNull)
                 (λ _ _, Ok {| url := "";
                               fetchOptions :=
                                 {| headers := HeaderObject {[ "Accept" := "*/*" ]};
                                    fetchOthers := VNull |} |})
                 {| fullRoute := "/users/42/"; requestOthers := VNull |} [])
      as (c1 & Hc1 & _ & Hcall); [reflexivity | reflexivity | | by exists c1].
    intros fields [= <-]. reflexivity.
Defined.

(** ** Exceptions of the callbacks *)

(** C8: whichever patch the lookup selects, an exception [e] thrown by its
    [pre] callback, or by its [post] callback on the response, is what the
    wrapped [request] throws, and an exception thrown by its [resolve]
    callback is what the wrapped [resolveRequest] throws, also through the
    user-agent wrapper around it: the same [e], with no other outcome. *)
Theorem patch_exception_propagates
    (rq : Patches → RestRequest → list value → result value)
    (rs : Patches → RestRequest → list value → result Resolved)
    (p : Patches) config options args patch e :
  patches_rest p = Some config →
  Rest.lookupPatch (fullRoute options) (routes config) = Ok (Some patch) →
  (∀ hook,
     pre patch = Some hook →
     hook (contextOf p) (Rest.applyRedirect (Some patch) options) = Throw e →
     Rest.patchRequest rq p options args = Throw e)
  ∧ (∀ hook sent res,
       match pre patch with
       | Some h => h (contextOf p) (Rest.applyRedirect (Some patch) options)
       | None => Ok (Rest.applyRedirect (Some patch) options)
       end = Ok sent →
       rq p sent args = Ok res →
       post patch = Some hook →
       hook (contextOf p) sent res = Throw e →
       Rest.patchRequest rq p options args = Throw e)
  ∧ (∀ hook res,
       rs p options args = Ok res →
       resolve patch = Some hook →
       hook (contextOf p) options res = Throw e →
       Rest.patchResolveRequest rs p options args = Throw e
       ∧ UserAgent.wrapResolveRequest (Rest.patchResolveRequest rs) p options args
         = Throw e).
Proof.
  intros Hrest Hpatch. split; [|split].
  - intros hook Hpre Hthrow. unfold Rest.patchRequest.
    rewrite Hrest. cbn [slot mbind result_bind]. rewrite Hpatch.
    cbn [mbind result_bind option_bind]. by rewrite Hpre, Hthrow.
  - intros hook sent res Hsent Hres Hpost Hthrow. unfold Rest.patchRequest.
    rewrite Hrest. cbn [slot mbind result_bind]. rewrite Hpatch.
    cbn [mbind result_bind option_bind]. rewrite Hsent.
    cbn [mbind result_bind]. rewrite Hres. cbn [mbind result_bind].
    by rewrite Hpost.
  - intros hook res Hres Hresolve Hthrow.
    assert (Rest.patchResolveRequest rs p options args = Throw e) as H.
    { unfold Rest.patchResolveRequest.
      rewrite Hrest. cbn [slot mbind result_bind]. rewrite Hpatch.
      cbn [mbind result_bind option_bind]. rewrite Hres.
      cbn [mbind result_bind]. by rewrite Hresolve. }
    split; [exact H|]. unfold UserAgent.wrapResolveRequest. by rewrite H.
Qed.

(** C8 at a patch whose [pre] and [resolve] callbacks throw, and at one
    whose [post] callback throws. *)
Lemma patch_exception_propagates_example :
  let failing :=
    {| redirect := None;
       pre := Some (λ _ _, Throw (Thrown "pre"));
       post := None;
       resolve := Some (λ _ _ _, Throw (Thrown "resolve")) |} in
  let late :=
    {| redirect := None; pre := None;
       post := Some (λ _ _ _, Throw (Thrown "post"));
       resolve := None |} in
  let p :=
    {| patches_authPrefix := None; patches_gateway := None;
       patches_rest :=
         Some {| routes := Map.set "/channels/2" late
                             (Map.set "/channels/1" failing []) |};
       patches_userAgent := None |} in
  let resolved :=
    {| url := ""; fetchOptions := {| headers := NoHeaders; fetchOthers := VNull |} |} in
  Rest.patchRequest (λ _ _ _, Ok VNull) p
    {| fullRoute := "/channels/1"; requestOthers := VNull |} []
  = Throw (Thrown "pre")
  ∧ Rest.patchRequest (λ _ _ _, Ok VNull) p
      {| fullRoute := "/channels/2"; requestOthers := VNull |} []
    = Throw (Thrown "post")
  ∧ UserAgent.wrapResolveRequest
      (Rest.patchResolveRequest (λ _ _ _, Ok resolved)) p
      {| fullRoute := "/channels/1"; requestOthers := VNull |} []
    = Throw (Thrown "resolve").
Proof.
  intros failing late p resolved. split; [|split].
  - destruct (patch_exception_propagates
                (λ _ _ _, Ok VNull) (λ _ _ _, Ok resolved) p
                {| routes := Map.set "/channels/2" late
                               (Map.set "/channels/1" failing []) |}
                {| fullRoute := "/channels/1"; requestOthers := VNull |} []
                failing (Thrown "pre") eq_refl eq_refl)
      as (Hpre & _ & _).
    apply (Hpre (λ _ _, Throw (Thrown "pre"))); reflexivity.
  - destruct (patch_exception_propagates
                (λ _ _ _, Ok VNull) (λ _ _ _, Ok resolved) p
                {| routes := Map.set "/channels/2" late
                               (Map.set "/channels/1" failing []) |}
                {| fullRoute := "/channels/2"; requestOthers := VNull |} []
                late (Thrown "post") eq_refl eq_refl)
      as (_ & Hpost & _).
    apply (Hpost (λ _ _ _, Throw (Thrown "post"))
             {| fullRoute := "/channels/2"; requestOthers := VNull |} VNull);
      reflexivity.
  - destruct (patch_exception_propagates
                (λ _ _ _, Ok VNull) (λ _ _ _, Ok resolved) p
                {| routes := Map.set "/channels/2" late
                               (Map.set "/channels/1" failing []) |}
                {| fullRoute := "/channels/1"; requestOthers := VNull |} []
                failing (Thrown "resolve") eq_refl eq_refl)
      as (_ & _ & Hresolve).
    apply (Hresolve (λ _ _ _, Throw (Thrown "resolve")) resolved); reflexivity.
Defined.

(** ** Gateway frames *)

(** An array index is never the name [data]. *)
Lemma pretty_N_go_ne_data x s : s ≠ "data" → pretty_N_go x s ≠ "data".
Proof.
  revert s. induction (N.lt_wf_0 x) as [x _ IH]; intros s Hs.
  destruct (decide (x = 0)%N) as [->|Hx]; [by rewrite pretty_N_go_0|].
  rewrite pretty_N_go_step by lia. apply IH; [apply N.div_lt; lia|].
  unfold pretty_N_char. by repeat case_match.
Qed.

Lemma index_ne_data (i : nat) : pretty i ≠ "data".
Proof.
  unfold pretty, pretty_nat, pretty, pretty_N.
  case_decide; [done|]. by apply pretty_N_go_ne_data.
Qed.

Lemma assoc_imap_None {A} (f : nat → string) k (l : list A) :
  (∀ i, f i ≠ k) → Js.assoc k (imap (λ i x, (f i, x)) l) = None.
Proof.
  revert f. induction l as [|x l IH]; intros f Hf; [done|].
  cbn [imap Js.assoc]. destruct (String.eqb (f 0%nat) k) eqn:E.
  - apply String.eqb_eq in E. by destruct (Hf 0%nat).
  - apply (IH (f ∘ S)). intros i. apply Hf.
Qed.

Lemma assoc_app_r {A} k (l1 l2 : list (string * A)) :
  Js.assoc k l1 = None → Js.assoc k (l1 ++ l2)%list = Js.assoc k l2.
Proof.
  induction l1 as [|[k' y] l1 IH]; [done|]. cbn [Js.assoc app].
  by destruct (String.eqb k' k).
Qed.

Lemma assign_same {A} k (x : A) l : Js.assoc k l = Some x → Js.assign k x l = l.
Proof.
  induction l as [|[k' y] l IH]; [done|]. cbn [Js.assoc Js.assign].
  destruct (String.eqb k' k); [by intros [= ->]|]. intros H. by rewrite IH.
Qed.

(** Writing back the frame that was read leaves the envelope as it is. *)
Lemma setProp_data_same envelope data :
  Js.member envelope "data" = Ok data → Js.isObject data = true →
  Js.setProp envelope "data" data = Ok envelope.
Proof.
  intros Hm Hobj.
  assert (Js.assoc "data" (Js.ownProps envelope) = Some data) as Hdata.
  { unfold Js.member, Js.getProp in Hm.
    destruct envelope; try done; injection Hm as Hm;
      destruct (Js.assoc "data" _) as [d|]; cbn in Hm; subst; by try done. }
  destruct envelope as [| | | |str|elems named|props];
    cbn [Js.ownProps Js.assoc] in Hdata; try done.
  - unfold Js.indexed in Hdata.
    by rewrite (assoc_imap_None _ _ _ index_ne_data) in Hdata.
  - unfold Js.indexed in Hdata.
    rewrite assoc_app_r in Hdata by (apply assoc_imap_None, index_ne_data).
    cbn [Js.setProp]. by rewrite (assign_same _ _ _ Hdata).
  - cbn [Js.setProp]. by rewrite (assign_same _ _ _ Hdata).
Qed.

Lemma hasProp_of_getProp data k x :
  Js.getProp data k = x → x ≠ VUndef → Js.hasProp data k = true.
Proof.
  unfold Js.getProp, Js.hasProp. intros H Hx. apply bool_decide_eq_true.
  destruct (Js.assoc k (Js.ownProps data)); [by eexists|].
  cbn in H. congruence.
Qed.

(** [ws.emit] on a dispatch event. *)
Lemma patchShardInbound_dispatch {R} (emit : list value → result R) p envelope rest :
  Gateway.patchShardInbound emit p (VStr "dispatch" :: envelope :: rest)
  = (data ← Js.member envelope "data";
     if Js.isObject data && Js.hasProp data "op" then
       data ← Gateway.inboundData p data;
       envelope' ← Js.setProp envelope "data" data;
       emit (VStr "dispatch" :: envelope' :: rest)
     else emit (VStr "dispatch" :: envelope :: rest)).
Proof. reflexivity. Qed.

(** C5: for an inbound dispatch frame whose opcode has a packet patch with
    an inbound hook, the hook is applied to the whole frame first; the event
    patch is then looked up under the [t] of what the hook returned and is
    applied to that; the outcome is written into the envelope and passed
    on. So when the packet patch changes the event name, the event patch
    registered under the new name is the one that runs. *)
Theorem inbound_packet_then_event {R} (emit : list value → result R)
    (p : Patches) config envelope rest data packet hook patched :
  patches_gateway p = Some config →
  Js.member envelope "data" = Ok data →
  Js.isObject data = true →
  Js.getProp data "op" = VNum Gateway.GatewayOpcodes_Dispatch →
  packets config !! Js.toString (VNum Gateway.GatewayOpcodes_Dispatch) = Some packet →
  packet_inbound packet = Some hook →
  hook (contextOf p) data = Ok patched →
  Gateway.patchShardInbound emit p (VStr "dispatch" :: envelope :: rest)
  = (event ← Js.member patched "t";
     final ← Gateway.applyHook
               ((events config !! Js.toString event) ≫= event_inbound)
               (contextOf p) patched;
     envelope' ← Js.setProp envelope "data" final;
     emit (VStr "dispatch" :: envelope' :: rest)).
Proof.
  intros Hgw Hdata Hobj Hop Hpacket Hhook Hpatched.
  rewrite patchShardInbound_dispatch, Hdata. cbn [mbind result_bind].
  rewrite Hobj, (hasProp_of_getProp _ _ _ Hop ltac:(discriminate)). cbn [andb].
  unfold Gateway.inboundData, Gateway.packetPatch, Gateway.eventPatch.
  rewrite Hgw, Hop. cbn [slot mbind result_bind]. rewrite Hpacket.
  cbn [option_bind mbind]. rewrite Hhook. cbn [Gateway.applyHook].
  rewrite Hpatched. cbn [result_bind Js.isNumber].
  change (Z.eqb Gateway.GatewayOpcodes_Dispatch Gateway.GatewayOpcodes_Dispatch)
    with true. cbv iota.
  cbn [mbind result_bind].
  destruct (Js.member patched "t") as [event|]; cbn [mbind result_bind]; [|done].
  by destruct (Gateway.applyHook _ _ _).
Qed.

(** C5 at a packet patch that renames the event [A] to [B]: the frame gets
    the mark of the patch registered under [B]. *)
Lemma inbound_packet_then_event_example :
  let rename : Context → value → result value :=
    λ _ frame, Js.setProp frame "t" (VStr "B") in
  let mark (by_ : string) : Context → value → result value :=
    λ _ frame, Js.setProp frame "d" (VStr by_) in
  let p :=
    {| patches_authPrefix := None;
       patches_gateway :=
         Some {| packets := {[ "0" := {| packet_inbound := Some rename;
                                         packet_outbound := None |} ]};
                 events := <["A" := {| event_inbound := Some (mark "patch of A") |}]>
                             {[ "B" := {| event_inbound := Some (mark "patch of B") |} ]} |};
       patches_rest := None; patches_userAgent := None |} in
  Gateway.patchShardInbound Ok p
    [VStr "dispatch";
     VObj [("data", VObj [("op", VNum 0); ("t", VStr "A"); ("d", VNull)])]]
  = Ok [VStr "dispatch";
        VObj [("data", VObj [("op", VNum 0); ("t", VStr "B");
                             ("d", VStr "patch of B")])]].
Proof.
  intros rename mark p.
  etrans.
  - apply (inbound_packet_then_event Ok p
             {| packets := {[ "0" := {| packet_inbound := Some rename;
                                        packet_outbound := None |} ]};
                events := <["A" := {| event_inbound := Some (mark "patch of A") |}]>
                            {[ "B" := {| event_inbound := Some (mark "patch of B") |} ]} |}
             (VObj [("data", VObj [("op", VNum 0); ("t", VStr "A"); ("d", VNull)])])
             []
             (VObj [("op", VNum 0); ("t", VStr "A"); ("d", VNull)])
             {| packet_inbound := Some rename; packet_outbound := None |}
             rename
             (VObj [("op", VNum 0); ("t", VStr "B"); ("d", VNull)]));
      reflexivity.
  - reflexivity.
Defined.

(** C7, as the code has it: [send] passes on unchanged a frame that has no
    [op] or whose opcode has no packet patch; [emit] passes on unchanged
    every event other than a dispatch, and a dispatch whose frame has no
    [op], or whose opcode has no packet patch and which, when that opcode is
    the dispatch opcode, has no event patch under its event name. *)
Theorem frames_without_patch_pass_through {R}
    (send : value → list value → result R) (emit : list value → result R)
    (p : Patches) config :
  patches_gateway p = Some config →
  (∀ data args,
     Js.isObject data && Js.hasProp data "op" = false
     ∨ packets config !! Js.toString (Js.getProp data "op") = None →
     Gateway.patchShardOutbound send p data args = send data args)
  ∧ (∀ args,
       Js.isString (default VUndef (args !! 0%nat)) "dispatch" = false →
       Gateway.patchShardInbound emit p args = emit args)
  ∧ (∀ envelope rest data,
       Js.member envelope "data" = Ok data →
       Js.isObject data && Js.hasProp data "op" = false
       ∨ (packets config !! Js.toString (Js.getProp data "op") = None
          ∧ (Js.isNumber (Js.getProp data "op") Gateway.GatewayOpcodes_Dispatch = false
             ∨ events config !! Js.toString (Js.getProp data "t") = None)) →
       Gateway.patchShardInbound emit p (VStr "dispatch" :: envelope :: rest)
       = emit (VStr "dispatch" :: envelope :: rest)).
Proof.
  intros Hgw. split; [|split].
  - intros data args H. unfold Gateway.patchShardOutbound, Gateway.outboundData.
    destruct (Js.isObject data && Js.hasProp data "op"); [|done].
    destruct H as [H|H]; [done|].
    unfold Gateway.packetPatch. rewrite Hgw. cbn [slot mbind result_bind].
    by rewrite H.
  - intros args H. unfold Gateway.patchShardInbound.
    change Gateway.WSWebSocketShardEvents_Dispatch with "dispatch".
    by rewrite H.
  - intros envelope rest data Hdata H.
    rewrite patchShardInbound_dispatch, Hdata. cbn [mbind result_bind].
    destruct (Js.isObject data && Js.hasProp data "op") eqn:Hop; [|done].
    destruct H as [H|[Hpacket Hevent]]; [done|].
    apply andb_true_iff in Hop as [Hobj _].
    assert (Gateway.inboundData p data = Ok data) as ->.
    { unfold Gateway.inboundData, Gateway.packetPatch, Gateway.eventPatch.
      rewrite Hgw. cbn [slot mbind result_bind]. rewrite Hpacket.
      cbn [option_bind mbind Gateway.applyHook result_bind].
      destruct (Js.isNumber _ _); [|done].
      destruct Hevent as [Hevent|Hevent]; [done|].
      unfold Js.member. destruct data; try done;
        cbn [mbind result_bind]; by rewrite Hevent. }
    cbn [mbind result_bind].
    by rewrite (setProp_data_same _ _ Hdata Hobj).
Qed.

(** C7 under the default patches: a heartbeat goes out as it is, and a
    dispatch of an event without a patch goes in as it is. *)
Lemma frames_without_patch_pass_through_example :
  Gateway.patchShardOutbound (λ data args, Ok (data :: args)) defaultPatches
    (VObj [("op", VNum 1); ("d", VNum 42)]) []
  = Ok [VObj [("op", VNum 1); ("d", VNum 42)]]
  ∧ Gateway.patchShardInbound Ok defaultPatches
      [VStr "dispatch";
       VObj [("data", VObj [("op", VNum 0); ("t", VStr "TYPING_START");
                            ("d", VObj [])]);
             ("shardId", VNum 0)]]
    = Ok [VStr "dispatch";
          VObj [("data", VObj [("op", VNum 0); ("t", VStr "TYPING_START");
                               ("d", VObj [])]);
                ("shardId", VNum 0)]].
Proof.
  destruct (frames_without_patch_pass_through
              (λ data args, Ok (data :: args)) Ok
              defaultPatches Gateway.createDefaults eq_refl)
    as (Hout & _ & Hin).
  split.
  - apply Hout. right. reflexivity.
  - apply (Hin _ _ (VObj [("op", VNum 0); ("t", VStr "TYPING_START");
                          ("d", VObj [])])); [reflexivity|].
    right. split; [reflexivity|]. right. reflexivity.
Defined.

(** C7 as stated fails for an inbound dispatch: under the default patches
    the dispatch opcode has no packet patch, yet a [READY] frame reaches the
    consumer with the [application] block that the event patch adds. *)
Lemma ready_frame_is_patched :
  packets Gateway.createDefaults
    !! Js.toString (VNum Gateway.GatewayOpcodes_Dispatch) = None
  ∧ Gateway.patchShardInbound Ok defaultPatches
      [VStr "dispatch";
       VObj [("data", VObj [("op", VNum 0); ("t", VStr "READY");
                            ("d", VObj [("v", VNum 10)])]);
             ("shardId", VNum 0)]]
    = Ok [VStr "dispatch";
          VObj [("data", VObj [("op", VNum 0); ("t", VStr "READY");
                               ("d", VObj [("v", VNum 10);
                                           ("application",
                                            VObj [("id", VStr "0");
                                                  ("flags", VNum 0)])])]);
                ("shardId", VNum 0)]].
Proof. split; reflexivity. Qed.

(** * Further properties of the patches *)

(** ** [escapeRegExp] *)

Lemma parse_escape s :
  RegExp.parse (esc s) = Some (RegExp.AChar <$> list_ascii_of_string s).
Proof.
  induction s as [|c s IH]; [done|]. cbn [esc list_ascii_of_string fmap list_fmap].
  destruct (RegExp.isSyntaxChar c) eqn:Hc.
  - by rewrite (parse_escaped _ _ Hc), IH.
  - by rewrite (parse_literal _ _ Hc), IH.
Qed.

Lemma matchHere_literal s b t :
  RegExp.matchHere (RegExp.AChar <$> list_ascii_of_string s) b t = startsWith t s.
Proof.
  revert b t. induction s as [|c s IH]; intros b t; [by destruct t|].
  cbn [list_ascii_of_string fmap list_fmap RegExp.matchHere startsWith].
  destruct t as [|d t]; [done|]. by rewrite IH.
Qed.

(** X1: whatever the string, its escaped form is a pattern that [new
    RegExp] accepts, and behind the anchor it matches exactly the inputs
    that start with the string: every character is taken literally. *)
Theorem escapeRegExp_literal s :
  ∃ re, RegExp.compile ("^" +:+ Rest.escapeRegExp s) = Ok re ∧
        ∀ t, RegExp.test re t = startsWith t s.
Proof.
  exists (RegExp.AStart :: (RegExp.AChar <$> list_ascii_of_string s)).
  unfold RegExp.compile.
  change (RegExp.parse ("^" +:+ esc s)) with (cons RegExp.AStart <$> RegExp.parse (esc s)).
  rewrite parse_escape. split; [done|]. intros t.
  by rewrite test_anchored, matchHere_literal.
Qed.

(** ** Keys without a placeholder *)

Lemma testParameterizedMatch_plain route key :
  ¬ RouteSpec.HasPlaceholder key → Rest.testParameterizedMatch route key = Ok false.
Proof.
  intros H. unfold Rest.testParameterizedMatch.
  destruct (Rest.REGEX_PARAMETER_test key) eqn:E; [|done].
  by apply REGEX_PARAMETER_test_spec in E.
Qed.

(** X2: a key without a placeholder is never matched as a template, so in
    a map whose keys all lack placeholders the lookup is the exact lookup. *)
Theorem lookupPatch_plain_keys route (routes : Map.t RoutePatch) :
  Forall (λ e, ¬ RouteSpec.HasPlaceholder e.1) routes →
  Forall (λ e, Rest.testParameterizedMatch route e.1 = Ok false) routes
  ∧ Rest.lookupPatch route routes = Ok (Map.get route routes).
Proof.
  intros Hplain.
  assert (Forall (λ e, Rest.testParameterizedMatch route e.1 = Ok false) routes) as Hno.
  { eapply Forall_impl; [exact Hplain|]. intros e. apply testParameterizedMatch_plain. }
  split; [exact Hno|]. unfold Rest.lookupPatch.
  destruct (Map.get route routes) as [patch|]; [done|].
  unfold Map.entries. clear Hplain.
  induction Hno as [|[key val] l Hkey _ IH]; [done|].
  cbn [Rest.firstParameterized]. cbn [fst] in Hkey. by rewrite Hkey.
Qed.

(** X2 at a map with the gateway routes only. *)
Lemma lookupPatch_plain_keys_example :
  let plain := {| redirect := None; pre := None; post := None; resolve := None |} in
  Rest.lookupPatch "/gateway/bot/extra"
    (Map.set "/gateway/bot" plain (Map.set "/gateway" plain []))
  = Ok None.
Proof.
  intros plain.
  destruct (lookupPatch_plain_keys "/gateway/bot/extra"
              (Map.set "/gateway/bot" plain (Map.set "/gateway" plain []))) as [_ H].
  - repeat constructor; cbn [fst]; intros HP;
      by apply REGEX_PARAMETER_test_spec in HP.
  - exact H.
Defined.

(** ** Extending a route *)

(** X3: the match is a prefix match: when a route is accepted for a key,
    so is every extension of the route that contains no ["{:"]. *)
Theorem testParameterizedMatch_extends route suffix key :
  Rest.testParameterizedMatch route key = Ok true →
  (∀ a b, route +:+ suffix ≠ a +:+ "{:" +:+ b) →
  Rest.testParameterizedMatch (route +:+ suffix) key = Ok true.
Proof.
  intros Hm Hnone.
  destruct (testParameterizedMatch_decides route key) as (b & Hb & Hspec).
  rewrite Hm in Hb. injection Hb as <-.
  destruct Hspec as [(Hhas & _ & (p & rest & -> & Hinst)) _]; [done|].
  destruct (testParameterizedMatch_decides ((p +:+ rest) +:+ suffix) key)
    as (b' & -> & Hspec').
  f_equal. apply Hspec'. split; [done|]. split.
  - by apply guard_without_brace.
  - exists p, (rest +:+ suffix). split; [apply append_assoc|done].
Qed.

(** X3 at the per-user template. *)
Lemma testParameterizedMatch_extends_example :
  Rest.testParameterizedMatch "/users/@me/guilds/7/member" "/users/{:id}/" = Ok true.
Proof.
  apply (testParameterizedMatch_extends "/users/@me/" "guilds/7/member" "/users/{:id}/").
  - reflexivity.
  - intros a b H.
    destruct (indexOf_spec "/users/@me/guilds/7/member" "{:")
      as [[_ Hnone]|(before & after & _ & Hi & _)].
    + by apply (Hnone a b).
    + assert (indexOf "/users/@me/guilds/7/member" "{:" = (-1)%Z) as Hc
        by reflexivity.
      rewrite Hc in Hi. lia.
Defined.

(** ** The default route patches *)

Lemma lookupPatch_defaults route :
  ∃ patch,
    Rest.lookupPatch route Rest.createDefaults = Ok patch
    ∧ (Rest.testParameterizedMatch route "/users/{:id}/" = Ok false →
       patch ≫= resolve = None)
    ∧ (route ≠ Rest.Routes_gatewayBot →
       patch ≫= redirect = None ∧ patch ≫= pre = None ∧ patch ≫= post = None).
Proof.
  unfold Rest.lookupPatch, Map.get.
  change Rest.createDefaults with Rest.DEFAULT_ROUTE_PATCHES.
  unfold Rest.DEFAULT_ROUTE_PATCHES. cbn [Js.assoc].
  destruct (String.eqb Rest.Routes_gatewayBot route) eqn:E1.
  { apply String.eqb_eq in E1. eexists. split; [done|]. split; [done|].
    intros Hne. by destruct Hne. }
  destruct (String.eqb "/users/{:id}/" route) eqn:E2.
  { apply String.eqb_eq in E2. subst route. eexists. split; [done|].
    split; [|done]. intros H. vm_compute in H. discriminate. }
  cbn [Map.entries Rest.firstParameterized].
  assert (Rest.testParameterizedMatch route Rest.Routes_gatewayBot = Ok false) as ->
    by reflexivity.
  cbn [mbind result_bind].
  destruct (testParameterizedMatch_decides route "/users/{:id}/") as ([] & -> & _);
    cbn [mbind result_bind]; eexists; (split; [done|]); split; done.
Qed.

(** X4: under the default patches [request] is altered for the gateway-bot
    route only: for every other route the patched [request] is the
    underlying one, on the same request. *)
Theorem default_request_elsewhere rq rs options args :
  fullRoute options ≠ Rest.Routes_gatewayBot →
  ∃ c1, userbot (unpatched rq rs) = Ok c1
        ∧ call_request c1 options args = rq options args.
Proof.
  intros Hroute. eexists. split; [apply userbot_unpatched|].
  unfold call_request. cbn [request patches]. unfold Rest.patchRequest.
  cbn [defaultPatches patches_rest slot mbind result_bind routes].
  destruct (lookupPatch_defaults (fullRoute options)) as (patch & -> & _ & H).
  destruct (H Hroute) as (Hredirect & Hpre & Hpost).
  cbn [mbind result_bind]. unfold Rest.applyRedirect.
  rewrite Hredirect, Hpre, Hpost. cbn [mbind result_bind].
  by destruct (rq options args).
Qed.

(** X4 at a channel route. *)
Lemma default_request_elsewhere_example :
  ∃ c1, userbot (unpatched (λ o _, Ok (VStr (fullRoute o))) (λ _ _, Throw TypeError)) = Ok c1
        ∧ call_request c1 {| fullRoute := "/channels/1"; requestOthers := VNull |} []
          = Ok (VStr "/channels/1").
Proof.
  apply (default_request_elsewhere
           (λ o _, Ok (VStr (fullRoute o))) (λ _ _, Throw TypeError)
           {| fullRoute := "/channels/1"; requestOthers := VNull |} []).
  discriminate.
Defined.

(** X5: under the default patches [resolveRequest], for a route that the
    per-user template does not match, is the underlying [resolveRequest]
    with the user-agent wrapper alone around it. *)
Theorem default_resolve_elsewhere rq rs options args :
  Rest.testParameterizedMatch (fullRoute options) "/users/{:id}/" = Ok false →
  ∃ c1, userbot (unpatched rq rs) = Ok c1
        ∧ call_resolveRequest c1 options args
          = UserAgent.wrapResolveRequest (λ _, rs) defaultPatches options args.
Proof.
  intros Hroute. eexists. split; [apply userbot_unpatched|].
  unfold call_resolveRequest. cbn [resolveRequest patches].
  unfold UserAgent.wrapResolveRequest, Rest.patchResolveRequest.
  cbn [defaultPatches patches_rest slot mbind result_bind routes].
  destruct (lookupPatch_defaults (fullRoute options)) as (patch & -> & H & _).
  cbn [mbind result_bind].
  destruct (rs options args) as [res|e]; [|done].
  cbn [mbind result_bind]. by rewrite (H Hroute).
Qed.

(** X5 at the gateway-bot route, whose patch has no resolve hook. *)
Lemma default_resolve_elsewhere_example :
  ∃ c1,
    userbot (unpatched
               (λ _ _, Ok VNull)
               (λ _ _, Ok {| url := "https://discord.com/api/gateway";
                             fetchOptions :=
                               {| headers := HeaderObject {[ "Authorization" := "Bearer xyz" ]};
                                  fetchOthers := VNull |} |})) = Ok c1
    ∧ call_resolveRequest c1 {| fullRoute := "/gateway/bot"; requestOthers := VNull |} []
      = Ok {| url := "https://discord.com/api/gateway";
              fetchOptions :=
                {| headers :=
                     HeaderObject
                       (<["User-Agent" := UserAgent.DEFAULT_USER_AGENT]>
                          {[ "Authorization" := "Bearer xyz" ]});
                   fetchOthers := VNull |} |}.
Proof.
  edestruct (default_resolve_elsewhere
               (λ _ _, Ok VNull)
               (λ _ _, Ok {| url := "https://discord.com/api/gateway";
                             fetchOptions :=
                               {| headers := HeaderObject {[ "Authorization" := "Bearer xyz" ]};
                                  fetchOthers := VNull |} |})
               {| fullRoute := "/gateway/bot"; requestOthers := VNull |} [])
    as (c1 & Hc1 & Hcall); [reflexivity|].
  exists c1. split; [exact Hc1|]. rewrite Hcall. reflexivity.
Defined.

Lemma stripPrefix_None_startsWith p s :
  startsWith s p = false → Rest.stripPrefix p s = None.
Proof.
  revert s. induction p as [|a p IH]; intros [|b s]; cbn; try done.
  destruct (Ascii.eqb a b); [apply IH|done].
Qed.

(** X6: under the default patches, a resolve for a route that the per-user
    template matches, with headers that are a mapping with an
    [Authorization] entry, comes back with one leading ["Bearer "] removed
    from that entry (nothing removed when the value does not start with
    it), the [User-Agent] entry set, and every other entry as it was. *)
Theorem users_resolve_strips_bearer rq rs options args res fields auth :
  Rest.testParameterizedMatch (fullRoute options) "/users/{:id}/" = Ok true →
  rs options args = Ok res →
  headers (fetchOptions res) = HeaderObject fields →
  fields !! "Authorization" = Some auth →
  ∃ c1 out,
    userbot (unpatched rq rs) = Ok c1
    ∧ call_resolveRequest c1 options args = Ok (with_headers (HeaderObject out) res)
    ∧ out !! "Authorization" = Some (Rest.stripBearer auth)
    ∧ out !! "User-Agent" = Some UserAgent.DEFAULT_USER_AGENT
    ∧ (∀ name, name ≠ "Authorization" → name ≠ "User-Agent" →
               out !! name = fields !! name)
    ∧ (∀ token, auth = "Bearer " +:+ token → Rest.stripBearer auth = token)
    ∧ (startsWith auth "Bearer " = false → Rest.stripBearer auth = auth).
Proof.
  intros Hroute Hres Hfields Hauth.
  exists {| patches := defaultPatches; authPrefix := "Bearer";
            request := Rest.patchRequest (λ _, rq);
            resolveRequest :=
              UserAgent.wrapResolveRequest (Rest.patchResolveRequest (λ _, rs));
            ws_internal := true |},
         (<["User-Agent" := UserAgent.DEFAULT_USER_AGENT]>
            (<["Authorization" := Rest.stripBearer auth]> fields)).
  split; [apply userbot_unpatched|]. split; [|split; [|split; [|split; [|split]]]].
  - unfold call_resolveRequest. cbn [resolveRequest patches].
    unfold UserAgent.wrapResolveRequest, Rest.patchResolveRequest.
    cbn [defaultPatches patches_rest slot mbind result_bind routes].
    rewrite (lookupPatch_users_default _ Hroute), Hres.
    cbn [mbind result_bind option_bind resolve].
    unfold Rest.users_resolve. rewrite Hfields, Hauth. cbn [mbind result_bind].
    unfold UserAgent.normalizeStep, UserAgent.injectStep.
    cbn [with_headers fetchOptions headers mbind result_bind
         patches_userAgent slot value_ fst]. done.
  - rewrite lookup_insert_ne by done. apply lookup_insert_eq.
  - apply lookup_insert_eq.
  - intros name H1 H2. by rewrite !lookup_insert_ne.
  - intros token ->. unfold Rest.stripBearer.
    by rewrite (proj2 (stripPrefix_Some "Bearer " _ token) eq_refl).
  - intros H. unfold Rest.stripBearer.
    by rewrite (stripPrefix_None_startsWith _ _ H).
Qed.

(** X6 at a guild listing under the per-user prefix. *)
Lemma users_resolve_strips_bearer_example :
  ∃ c1 out,
    userbot (unpatched
               (λ _ _, Ok VNull)
               (λ _ _, Ok {| url := "";
                             fetchOptions :=
                               {| headers :=
                                    HeaderObject (<["Accept" := "*/*"]>
                                                    {[ "Authorization" := "Bearer xyz" ]});
                                  fetchOthers := VNull |} |})) = Ok c1
    ∧ call_resolveRequest c1 {| fullRoute := "/users/@me/guilds"; requestOthers := VNull |} []
      = Ok {| url := "";
              fetchOptions := {| headers := HeaderObject out; fetchOthers := VNull |} |}
    ∧ out !! "Authorization" = Some "xyz"
    ∧ out !! "Accept" = Some "*/*".
Proof.
  edestruct (users_resolve_strips_bearer
               (λ _ _, Ok VNull)
               (λ _ _, Ok {| url := "";
                             fetchOptions :=
                               {| headers :=
                                    HeaderObject (<["Accept" := "*/*"]>
                                                    {[ "Authorization" := "Bearer xyz" ]});
                                  fetchOthers := VNull |} |})
               {| fullRoute := "/users/@me/guilds"; requestOthers := VNull |} [])
    as (c1 & out & Hc1 & Hcall & Hauth & _ & Hother & _);
    [reflexivity | reflexivity | reflexivity | reflexivity |].
  exists c1, out. split; [exact Hc1|]. split; [exact Hcall|].
  split; [exact Hauth|]. by rewrite Hother.
Defined.

(** X7: the response of the gateway-bot route is the underlying response
    with [shards] and [session_start_limit] supplied only where it lacks
    them: every property of the response keeps its value, also a [shards]
    or [session_start_limit] of its own, and nothing else is added. *)
Theorem gatewayBot_post_precedence client req res :
  NoDup (Js.ownProps res).*1 →
  ∃ out,
    Rest.gatewayBot_post client req res = Ok (VObj out)
    ∧ (∀ k x, Js.assoc k (Js.ownProps res) = Some x → Js.assoc k out = Some x)
    ∧ (Js.assoc "shards" (Js.ownProps res) = None →
       Js.assoc "shards" out = Some (VNum 1))
    ∧ (Js.assoc "session_start_limit" (Js.ownProps res) = None →
       Js.assoc "session_start_limit" out
       = Some (VObj [("total", VNum 1); ("remaining", VNum 1);
                     ("reset_after", VNum 14400000); ("max_concurrency", VNum 1)]))
    ∧ (∀ k, k ≠ "shards" → k ≠ "session_start_limit" →
            Js.assoc k out = Js.assoc k (Js.ownProps res)).
Proof.
  intros Hnd. eexists. split; [reflexivity|].
  split; [|split; [|split]].
  - intros k x Hk. by apply spreadOver_own.
  - intros H. by rewrite spreadOver_base.
  - intros H. by rewrite spreadOver_base.
  - intros k H1 H2. destruct (Js.assoc k (Js.ownProps res)) as [x|] eqn:Hk.
    + by apply spreadOver_own.
    + rewrite spreadOver_base by done. cbn [Js.assoc].
      destruct (String.eqb "shards" k) eqn:E1.
      { apply String.eqb_eq in E1. congruence. }
      destruct (String.eqb "session_start_limit" k) eqn:E2; [|done].
      apply String.eqb_eq in E2. congruence.
Qed.

(** X7 at a response with a shard count of its own. *)
Lemma gatewayBot_post_precedence_example :
  ∃ out,
    Rest.gatewayBot_post {| ctx_userAgent := None |}
      {| fullRoute := "/gateway"; requestOthers := VNull |}
      (VObj [("url", VStr "wss://gateway.discord.gg"); ("shards", VNum 16)])
    = Ok (VObj out)
    ∧ Js.assoc "shards" out = Some (VNum 16)
    ∧ Js.assoc "url" out = Some (VStr "wss://gateway.discord.gg").
Proof.
  destruct (gatewayBot_post_precedence {| ctx_userAgent := None |}
              {| fullRoute := "/gateway"; requestOthers := VNull |}
              (VObj [("url", VStr "wss://gateway.discord.gg"); ("shards", VNum 16)]))
    as (out & Hout & Hown & _).
  - cbn. apply NoDup_cons. split; [|apply NoDup_singleton].
    intros H%list_elem_of_singleton. discriminate.
  - exists out. split; [exact Hout|]. split; by apply Hown.
Defined.

(** ** The user-agent wrapper *)

Lemma with_headers_twice h1 h2 r :
  with_headers h1 (with_headers h2 r) = with_headers h1 r.
Proof. reflexivity. Qed.

(** X8: the user-agent wrapper is idempotent: around itself it gives, for
    every underlying [resolveRequest], patches and request, what it gives
    alone. *)
Theorem wrapResolveRequest_idempotent
    (original : Patches → RestRequest → list value → result Resolved)
    p options args :
  UserAgent.wrapResolveRequest (UserAgent.wrapResolveRequest original) p options args
  = UserAgent.wrapResolveRequest original p options args.
Proof.
  unfold UserAgent.wrapResolveRequest.
  destruct (original p options args) as [res|e]; [|done].
  cbn [mbind result_bind].
  unfold UserAgent.normalizeStep, UserAgent.injectStep.
  destruct (headers (fetchOptions res)) as [|lines|fields] eqn:Hh.
  - cbn [mbind result_bind fst]. by rewrite ?Hh.
  - destruct (UserAgent.normalizeHeaders lines) as [m|e] eqn:Hn; [|done].
    cbn [fmap result_fmap mbind result_bind].
    destruct (patches_userAgent p) as [ua|]; [|done].
    cbn [slot mbind result_bind fst]. rewrite ?Hh, ?Hn.
    by cbn [fmap result_fmap mbind result_bind fst].
  - cbn [mbind result_bind]. rewrite ?Hh.
    destruct (patches_userAgent p) as [ua|]; [|done].
    cbn [slot mbind result_bind fst with_headers fetchOptions headers].
    by rewrite insert_insert_eq.
Qed.

Lemma split_lacks sep s : lacks sep s = true → split sep s = [s].
Proof.
  induction s as [|c s IH]; [done|]. cbn [lacks split].
  intros [Hc Hs]%andb_true_iff. apply negb_true_iff in Hc.
  by rewrite Hc, (IH Hs).
Qed.

Lemma headerEntry_no_colon header :
  lacks ":" header = true → UserAgent.headerEntry header = Throw TypeError.
Proof.
  intros H. unfold UserAgent.headerEntry, splitLimit. by rewrite (split_lacks _ _ H).
Qed.

Lemma mapM_headerEntry lines :
  if forallb (λ h, negb (lacks ":" h)) lines
  then ∃ entries, mapM UserAgent.headerEntry lines = Ok entries
  else mapM UserAgent.headerEntry lines = Throw TypeError.
Proof.
  induction lines as [|h lines IH]; [by exists []|].
  cbn [forallb mapM]. destruct (lacks ":" h) eqn:Hh; cbn [negb andb].
  - by rewrite (headerEntry_no_colon _ Hh).
  - destruct (headerEntry_total _ Hh) as [e ->]. cbn [mbind result_bind].
    destruct (forallb _ lines).
    + destruct IH as [es ->]. by eexists.
    + by rewrite IH.
Qed.

(** X9: when the headers arrive as a list, the user-agent wrapper throws a
    [TypeError] if some header has no colon; if every header has one, it
    reads the user-agent configuration, throwing a [TypeError] when that
    slot of [client.patches] is undefined, and otherwise hands back the
    resolved request exactly as it got it, list and all. *)
Theorem wrapResolveRequest_list
    (original : Patches → RestRequest → list value → result Resolved)
    p options args res lines :
  original p options args = Ok res →
  headers (fetchOptions res) = HeaderList lines →
  UserAgent.wrapResolveRequest original p options args
  = if forallb (λ h, negb (lacks ":" h)) lines
    then match patches_userAgent p with
         | Some _ => Ok res
         | None => Throw TypeError
         end
    else Throw TypeError.
Proof.
  intros Hres Hlines. unfold UserAgent.wrapResolveRequest.
  rewrite Hres. cbn [mbind result_bind].
  unfold UserAgent.normalizeStep, UserAgent.normalizeHeaders. rewrite Hlines.
  pose proof (mapM_headerEntry lines) as H.
  destruct (forallb _ lines).
  - destruct H as [es ->]. cbn [mbind result_bind fmap result_fmap].
    unfold UserAgent.injectStep. by destruct (patches_userAgent p).
  - by rewrite H.
Qed.

(** X9 at a list with a header that has no colon, at a well-formed list
    under the default configuration, and at the same list on a client
    without a user-agent configuration. *)
Lemma wrapResolveRequest_list_example :
  let resolved lines :=
    {| url := "https://discord.com/api/channels/1";
       fetchOptions := {| headers := HeaderList lines; fetchOthers := VNull |} |} in
  let options := {| fullRoute := "/channels/1"; requestOthers := VNull |} in
  UserAgent.wrapResolveRequest
    (λ _ _ _, Ok (resolved ["Accept: */*"; "Connection"])) defaultPatches options []
  = Throw TypeError
  ∧ UserAgent.wrapResolveRequest
      (λ _ _ _, Ok (resolved ["Accept: */*"])) defaultPatches options []
    = Ok {| url := "https://discord.com/api/channels/1";
            fetchOptions := {| headers := HeaderList ["Accept: */*"];
                               fetchOthers := VNull |} |}
  ∧ UserAgent.wrapResolveRequest
      (λ _ _ _, Ok (resolved ["Accept: */*"])) noPatches options []
    = Throw TypeError.
Proof.
  intros resolved options. split; [|split].
  - apply (wrapResolveRequest_list _ defaultPatches options []
             (resolved ["Accept: */*"; "Connection"])
             ["Accept: */*"; "Connection"]); reflexivity.
  - apply (wrapResolveRequest_list _ defaultPatches options []
             (resolved ["Accept: */*"]) ["Accept: */*"]); reflexivity.
  - apply (wrapResolveRequest_list _ noPatches options []
             (resolved ["Accept: */*"]) ["Accept: */*"]); reflexivity.
Defined.

(** X10: in the normalized mapping the last header of a name wins, and a
    name that no header has is absent. *)
Theorem normalizeHeaders_last_wins lines last entry :
  Forall (λ h, lacks ":" h = false) lines →
  UserAgent.headerEntry last = Ok entry →
  ∃ fields,
    UserAgent.normalizeHeaders (lines ++ [last])%list = Ok fields
    ∧ fields !! entry.1 = Some entry.2
    ∧ ∀ name,
        Forall (λ h, ∀ e, UserAgent.headerEntry h = Ok e → e.1 ≠ name)
               (lines ++ [last])%list →
        fields !! name = None.
Proof.
  intros Hlines Hlast.
  destruct (mapM_total UserAgent.headerEntry lines) as [entries Hentries].
  { eapply Forall_impl; [exact Hlines|]. apply headerEntry_total. }
  assert (mapM UserAgent.headerEntry (lines ++ [last])%list
          = Ok (entries ++ [entry])%list) as Hall.
  { apply mapM_Ok. apply Forall2_app; [by apply mapM_Ok|].
    by constructor. }
  exists (UserAgent.fromEntries (entries ++ [entry])%list).
  unfold UserAgent.normalizeHeaders. rewrite Hall. split; [done|]. split.
  - unfold UserAgent.fromEntries. rewrite foldl_app. apply lookup_insert_eq.
  - intros name Hname. unfold UserAgent.fromEntries.
    rewrite fromEntries_other; [apply lookup_empty|].
    apply mapM_Ok in Hall. clear -Hall Hname.
    induction Hall as [|h e hs es He _ IH]; [constructor|].
    inversion Hname; subst. constructor; auto.
Qed.

(** X10 at a repeated [Accept]. *)
Lemma normalizeHeaders_last_wins_example :
  ∃ fields,
    UserAgent.normalizeHeaders ["Accept: text/html"; "Accept: */*"] = Ok fields
    ∧ fields !! "Accept" = Some "*/*".
Proof.
  destruct (normalizeHeaders_last_wins ["Accept: text/html"] "Accept: */*"
              ("Accept", "*/*")) as (fields & H1 & H2 & _).
  - by repeat constructor.
  - reflexivity.
  - by exists fields.
Defined.

(** ** Installation *)

(** X11: [userbot] fails fast, with the internal-API error, on a client
    whose [ws._ws] is undefined; on any other client it sets the bearer
    prefix, puts the REST wrappers around the client's methods and the
    user-agent wrapper around the resolve wrapper, and declares the default
    configuration in all four slots, whatever [client.patches] held. *)
Theorem userbot_installs c :
  userbot c
  = if ws_internal c
    then Ok {| patches := defaultPatches;
               authPrefix := "Bearer";
               request := Rest.patchRequest (request c);
               resolveRequest :=
                 UserAgent.wrapResolveRequest
                   (Rest.patchResolveRequest (resolveRequest c));
               ws_internal := true |}
    else Throw (Thrown "discord.js internal API has changed").
Proof.
  destruct c as [p prefix rq rs ws]. unfold userbot, DEFAULT_PATCHES.
  cbn [patchAll patchClient BearerToken mbind result_bind fst snd].
  unfold Gateway.Gateway. cbn [ws_internal set_patches].
  destruct ws; reflexivity.
Qed.

(** ** The default gateway patches *)





Lemma getProp_VObj props k x :
  Js.assoc k props = Some x → Js.getProp (VObj props) k = x.
Proof. intros H. unfold Js.getProp. cbn [Js.ownProps]. by rewrite H. Qed.

Lemma hasProp_VObj props k x :
  Js.assoc k props = Some x → Js.hasProp (VObj props) k = true.
Proof.
  intros H. unfold Js.hasProp. cbn [Js.ownProps]. rewrite H.
  by apply bool_decide_eq_true.
Qed.



(** X13: under the default gateway patches a [READY] dispatch whose [d] is
    an object reaches the consumer with [d.application] set to the
    placeholder block, in place of any [application] it had, and every
    other property of [d] as it was. *)
Theorem ready_frame_patched {R} (emit : list value → result R)
    p envelope rest fprops dprops :
  patches_gateway p = Some Gateway.createDefaults →
  Js.member envelope "data" = Ok (VObj fprops) →
  Js.assoc "op" fprops = Some (VNum Gateway.GatewayOpcodes_Dispatch) →
  Js.assoc "t" fprops = Some (VStr Gateway.GatewayDispatchEvents_Ready) →
  Js.assoc "d" fprops = Some (VObj dprops) →
  ∃ dprops',
    Gateway.patchShardInbound emit p (VStr "dispatch" :: envelope :: rest)
    = (envelope' ← Js.setProp envelope "data"
                     (VObj (Js.assign "d" (VObj dprops') fprops));
       emit (VStr "dispatch" :: envelope' :: rest))
    ∧ Js.assoc "application" dprops'
      = Some (VObj [("id", VStr "0"); ("flags", VNum 0)])
    ∧ ∀ k, k ≠ "application" → Js.assoc k dprops' = Js.assoc k dprops.
Proof.
  intros Hgw Hdata Hop Ht Hd. eexists. split; [|split].
  - rewrite patchShardInbound_dispatch, Hdata. cbn [mbind result_bind].
    rewrite (hasProp_VObj _ _ _ Hop). cbn [Js.isObject andb].
    unfold Gateway.inboundData, Gateway.packetPatch, Gateway.eventPatch.
    rewrite (getProp_VObj _ _ _ Hop), Hgw. cbn [slot mbind result_bind].
    change (packets Gateway.createDefaults
              !! Js.toString (VNum Gateway.GatewayOpcodes_Dispatch))
      with (@None GatewayPacketPatch).
    cbn [option_bind mbind Gateway.applyHook result_bind Js.isNumber].
    change (Z.eqb Gateway.GatewayOpcodes_Dispatch Gateway.GatewayOpcodes_Dispatch)
      with true. cbv iota.
    unfold Js.member at 1. rewrite (getProp_VObj _ _ _ Ht).
    cbn [mbind result_bind].
    change (events Gateway.createDefaults
              !! Js.toString (VStr Gateway.GatewayDispatchEvents_Ready))
      with (Some {| event_inbound := Some Gateway.ready_inbound |}).
    cbn [option_bind mbind event_inbound Gateway.applyHook].
    unfold Gateway.ready_inbound, Js.member. rewrite (getProp_VObj _ _ _ Hd).
    cbn [mbind result_bind Js.setProp]. reflexivity.
  - apply assoc_assign_eq.
  - intros k Hk. by apply assoc_assign_ne.
Qed.

(** X13 at a [READY] frame that brings an [application] of its own. *)
Lemma ready_frame_patched_example :
  ∃ dprops',
    Gateway.patchShardInbound Ok defaultPatches
      [VStr "dispatch";
       VObj [("data", VObj [("op", VNum 0); ("t", VStr "READY");
                            ("d", VObj [("application", VNull); ("v", VNum 10)])])]]
    = Ok [VStr "dispatch";
          VObj [("data", VObj [("op", VNum 0); ("t", VStr "READY");
                               ("d", VObj dprops')])]]
    ∧ Js.assoc "application" dprops'
      = Some (VObj [("id", VStr "0"); ("flags", VNum 0)])
    ∧ Js.assoc "v" dprops' = Some (VNum 10).
Proof.
  destruct (ready_frame_patched Ok defaultPatches
              (VObj [("data", VObj [("op", VNum 0); ("t", VStr "READY");
                                    ("d", VObj [("application", VNull); ("v", VNum 10)])])])
              []
              [("op", VNum 0); ("t", VStr "READY");
               ("d", VObj [("application", VNull); ("v", VNum 10)])]
              [("application", VNull); ("v", VNum 10)])
    as (dprops' & Hemit & Happ & Hkeep); try reflexivity.
  exists dprops'. split; [exact Hemit|]. split; [exact Happ|]. by rewrite Hkeep.
Defined.

Lemma setProp_not_object v k x : Js.isObject v = false → Js.setProp v k x = Throw TypeError.
Proof. by destruct v. Qed.

(** X14: the default hooks need [d] to be an object. Under the default
    gateway patches an Identify frame, and a [READY] dispatch, whose [d] is
    missing or not an object, is not passed on: the wrapper throws a
    [TypeError]. *)
Theorem default_hooks_need_d {R}
    (send : value → list value → result R) (emit : list value → result R)
    p frame args envelope rest :
  patches_gateway p = Some Gateway.createDefaults →
  Js.isObject frame = true →
  Js.isObject (Js.getProp frame "d") = false →
  (Js.getProp frame "op" = VNum Gateway.GatewayOpcodes_Identify →
   Gateway.patchShardOutbound send p frame args = Throw TypeError)
  ∧ (Js.getProp frame "op" = VNum Gateway.GatewayOpcodes_Dispatch →
     Js.getProp frame "t" = VStr Gateway.GatewayDispatchEvents_Ready →
     Js.member envelope "data" = Ok frame →
     Gateway.patchShardInbound emit p (VStr "dispatch" :: envelope :: rest)
     = Throw TypeError).
Proof.
  intros Hgw Hobj Hd.
  assert (Js.member frame "d" = Ok (Js.getProp frame "d")) as Hmember
    by (by destruct frame).
  split.
  - intros Hop. unfold Gateway.patchShardOutbound, Gateway.outboundData.
    rewrite Hobj, (hasProp_of_getProp _ _ _ Hop ltac:(discriminate)), Hop.
    cbn [andb]. unfold Gateway.packetPatch. rewrite Hgw.
    cbn [slot mbind result_bind].
    change (packets Gateway.createDefaults
              !! Js.toString (VNum Gateway.GatewayOpcodes_Identify))
      with (Some {| packet_inbound := None;
                    packet_outbound := Some Gateway.identify_outbound |}).
    cbn [option_bind mbind packet_outbound Gateway.applyHook].
    unfold Gateway.identify_outbound. rewrite Hmember.
    cbn [mbind result_bind]. by rewrite (setProp_not_object _ _ _ Hd).
  - intros Hop Ht Hdata.
    rewrite patchShardInbound_dispatch, Hdata. cbn [mbind result_bind].
    rewrite Hobj, (hasProp_of_getProp _ _ _ Hop ltac:(discriminate)).
    cbn [andb].
    unfold Gateway.inboundData, Gateway.packetPatch, Gateway.eventPatch.
    rewrite Hop, Hgw. cbn [slot mbind result_bind].
    change (packets Gateway.createDefaults
              !! Js.toString (VNum Gateway.GatewayOpcodes_Dispatch))
      with (@None GatewayPacketPatch).
    cbn [option_bind mbind Gateway.applyHook result_bind Js.isNumber].
    change (Z.eqb Gateway.GatewayOpcodes_Dispatch Gateway.GatewayOpcodes_Dispatch)
      with true. cbv iota.
    assert (Js.member frame "t" = Ok (VStr Gateway.GatewayDispatchEvents_Ready)) as ->.
    { rewrite <- Ht. by destruct frame. }
    cbn [mbind result_bind].
    change (events Gateway.createDefaults
              !! Js.toString (VStr Gateway.GatewayDispatchEvents_Ready))
      with (Some {| event_inbound := Some Gateway.ready_inbound |}).
    cbn [option_bind mbind event_inbound Gateway.applyHook].
    unfold Gateway.ready_inbound. rewrite Hmember.
    cbn [mbind result_bind]. by rewrite (setProp_not_object _ _ _ Hd).
Qed.

(** X14 at an Identify frame without [d] and a [READY] frame with a null
    [d]. *)
Lemma default_hooks_need_d_example :
  Gateway.patchShardOutbound (λ data args, Ok (data :: args)) defaultPatches
    (VObj [("op", VNum 2)]) []
  = Throw TypeError
  ∧ Gateway.patchShardInbound Ok defaultPatches
      [VStr "dispatch";
       VObj [("data", VObj [("op", VNum 0); ("t", VStr "READY"); ("d", VNull)])]]
    = Throw TypeError.
Proof.
  split.
  - destruct (default_hooks_need_d (λ data args, Ok (data :: args)) Ok
                defaultPatches (VObj [("op", VNum 2)]) [] VNull []
                eq_refl eq_refl eq_refl) as [H _].
    by apply H.
  - destruct (default_hooks_need_d (λ data args, Ok (data :: args)) Ok
                defaultPatches
                (VObj [("op", VNum 0); ("t", VStr "READY"); ("d", VNull)]) []
                (VObj [("data", VObj [("op", VNum 0); ("t", VStr "READY");
                                      ("d", VNull)])])
                [] eq_refl eq_refl eq_refl) as [_ H].
    by apply H.
Defined.

(** ** The inbound path *)

(** X15: whether the event patches are consulted depends on the opcode the
    frame arrived with: for a frame whose [op] is not the number 0 only the
    packet patch of that opcode is applied, whatever [op] and [t] the
    patched frame has. *)
Theorem inbound_other_opcode {R} (emit : list value → result R)
    (p : Patches) config envelope rest data :
  patches_gateway p = Some config →
  Js.member envelope "data" = Ok data →
  Js.isObject data = true →
  Js.hasProp data "op" = true →
  Js.isNumber (Js.getProp data "op") Gateway.GatewayOpcodes_Dispatch = false →
  Gateway.patchShardInbound emit p (VStr "dispatch" :: envelope :: rest)
  = (patched ← Gateway.applyHook
                 ((packets config !! Js.toString (Js.getProp data "op"))
                    ≫= packet_inbound)
                 (contextOf p) data;
     envelope' ← Js.setProp envelope "data" patched;
     emit (VStr "dispatch" :: envelope' :: rest)).
Proof.
  intros Hgw Hdata Hobj Hop Hother.
  rewrite patchShardInbound_dispatch, Hdata. cbn [mbind result_bind].
  rewrite Hobj, Hop. cbn [andb].
  unfold Gateway.inboundData, Gateway.packetPatch. rewrite Hgw, Hother.
  cbn [slot mbind result_bind].
  by destruct (Gateway.applyHook _ _ _).
Qed.

(** X15 at a frame of opcode 11 that its packet patch turns into a [READY]
    dispatch: the [READY] patch does not run. *)
Lemma inbound_other_opcode_example :
  let disguise : Context → value → result value :=
    λ _ _, Ok (VObj [("op", VNum 0); ("t", VStr "READY"); ("d", VObj [])]) in
  let p :=
    {| patches_authPrefix := None;
       patches_gateway :=
         Some {| packets := {[ "11" := {| packet_inbound := Some disguise;
                                          packet_outbound := None |} ]};
                 events := Gateway.DEFAULT_GATEWAY_EVENT_PATCHES |};
       patches_rest := None; patches_userAgent := None |} in
  Gateway.patchShardInbound Ok p
    [VStr "dispatch"; VObj [("data", VObj [("op", VNum 11)])]]
  = Ok [VStr "dispatch";
        VObj [("data", VObj [("op", VNum 0); ("t", VStr "READY"); ("d", VObj [])])]].
Proof.
  intros disguise p.
  etrans.
  - apply (inbound_other_opcode Ok p
             {| packets := {[ "11" := {| packet_inbound := Some disguise;
                                         packet_outbound := None |} ]};
                events := Gateway.DEFAULT_GATEWAY_EVENT_PATCHES |}
             (VObj [("data", VObj [("op", VNum 11)])]) []
             (VObj [("op", VNum 11)])); reflexivity.
  - reflexivity.
Defined.

(** X16: a dispatch event that comes without event data, or with [null] or
    [undefined] in its place, is not passed on: [emit] throws a
    [TypeError]. An envelope without a [data] member is passed on as it
    is. *)
Theorem dispatch_without_envelope {R} (emit : list value → result R) p :
  Gateway.patchShardInbound emit p [VStr "dispatch"] = Throw TypeError
  ∧ (∀ rest, Gateway.patchShardInbound emit p (VStr "dispatch" :: VNull :: rest)
             = Throw TypeError)
  ∧ (∀ rest, Gateway.patchShardInbound emit p (VStr "dispatch" :: VUndef :: rest)
             = Throw TypeError)
  ∧ (∀ props rest,
       Js.assoc "data" props = None →
       Gateway.patchShardInbound emit p (VStr "dispatch" :: VObj props :: rest)
       = emit (VStr "dispatch" :: VObj props :: rest)).
Proof.
  repeat split; try done.
  intros props rest H. rewrite patchShardInbound_dispatch.
  unfold Js.member, Js.getProp. cbn [Js.ownProps]. by rewrite H.
Qed.

(** ** The two generations of the gateway patch *)

(** The body of the [onPacket] wrapper is the frame transformation of the
    [emit] wrapper. *)
Lemma onPacket_inboundData {R} (original : value → list value → result R) p data args :
  GatewayShard.patchShardInbound original p data args
  = (frame ← (if Js.isObject data && Js.hasProp data "op"
              then Gateway.inboundData p data else Ok data);
     original frame args).
Proof. reflexivity. Qed.

(** X17: the wrapper on [ws.emit] does to the frame inside a dispatch
    envelope what the earlier wrapper on [shard.onPacket] did to the frame
    it was given: the envelope goes on with, as its [data], the frame that
    [onPacket] would have received. The wrappers on [send] and [_send] are
    the same function. *)
Theorem emit_wrapper_as_onPacket {R} (emit : list value → result R)
    (send : value → list value → result R) p props data rest :
  Js.assoc "data" props = Some data →
  Gateway.patchShardInbound emit p (VStr "dispatch" :: VObj props :: rest)
  = GatewayShard.patchShardInbound
      (λ frame _, emit (VStr "dispatch" :: VObj (Js.assign "data" frame props) :: rest))
      p data []
  ∧ ∀ frame args,
      Gateway.patchShardOutbound send p frame args
      = GatewayShard.patchShardOutbound send p frame args.
Proof.
  intros Hdata. split; [|done].
  assert (Js.member (VObj props) "data" = Ok data) as Hmember.
  { unfold Js.member. by rewrite (getProp_VObj _ _ _ Hdata). }
  rewrite patchShardInbound_dispatch, Hmember, onPacket_inboundData.
  cbn [mbind result_bind].
  destruct (Js.isObject data && Js.hasProp data "op").
  - by destruct (Gateway.inboundData p data).
  - cbn [mbind result_bind]. by rewrite (assign_same _ _ _ Hdata).
Qed.

(** X17 at a [READY] dispatch under the default patches. *)
Lemma emit_wrapper_as_onPacket_example :
  Gateway.patchShardInbound Ok defaultPatches
    [VStr "dispatch";
     VObj [("data", VObj [("op", VNum 0); ("t", VStr "READY"); ("d", VObj [])]);
           ("shardId", VNum 0)]]
  = GatewayShard.patchShardInbound
      (λ frame _, Ok [VStr "dispatch"; VObj [("data", frame); ("shardId", VNum 0)]])
      defaultPatches
      (VObj [("op", VNum 0); ("t", VStr "READY"); ("d", VObj [])]) [].
Proof.
  destruct (emit_wrapper_as_onPacket Ok (λ _ _, Ok []) defaultPatches
              [("data", VObj [("op", VNum 0); ("t", VStr "READY"); ("d", VObj [])]);
               ("shardId", VNum 0)]
              (VObj [("op", VNum 0); ("t", VStr "READY"); ("d", VObj [])])
              [] eq_refl) as [H _].
  exact H.
Defined.

(** ** The shards of a manager *)

Lemma patchEntries_tagged {R} (l : list (Z * Shards.Shard R)) :
  Forall (λ e, Shards.tagged e.2 = true) l → Shards.patchEntries l = (l, []).
Proof.
  induction 1 as [|e l He _ IH]; [done|].
  cbn [Shards.patchEntries]. unfold Shards.patchEntry. by rewrite He, IH.
Qed.

(** What the loop does to each shard. *)
Lemma patchEntries_each {R} (l : list (Z * Shards.Shard R)) :
  Forall2
    (λ e e',
       e'.1 = e.1 ∧ Shards.tagged e'.2 = true ∧
       if Shards.tagged e.2 then e' = e
       else ∀ p data args,
              Shards.send e'.2 p data args
              = Gateway.patchShardOutbound (Shards.send e.2 p) p data args)
    l (Shards.patchEntries l).1.
Proof.
  induction l as [|e l IH]; [constructor|].
  cbn [Shards.patchEntries fst]. constructor; [|exact IH].
  unfold Shards.patchEntry. destruct (Shards.tagged e.2) eqn:He; cbn [fst snd].
  - split; [done|]. split; [exact He|done].
  - split; [done|]. split; [done|]. intros p data args. reflexivity.
Qed.

Lemma patchEntries_all_tagged {R} (l : list (Z * Shards.Shard R)) :
  Forall (λ e, Shards.tagged e.2 = true) (Shards.patchEntries l).1.
Proof.
  induction l as [|e l IH]; [constructor|].
  cbn [Shards.patchEntries fst]. constructor; [|exact IH].
  unfold Shards.patchEntry. by destruct (Shards.tagged e.2) eqn:He.
Qed.

Lemma patchEntries_app {R} (l1 l2 : list (Z * Shards.Shard R)) :
  Shards.patchEntries (l1 ++ l2)%list
  = (((Shards.patchEntries l1).1 ++ (Shards.patchEntries l2).1)%list,
     ((Shards.patchEntries l1).2 ++ (Shards.patchEntries l2).2)%list).
Proof.
  induction l1 as [|e l1 IH].
  - cbn [app Shards.patchEntries fst snd]. by destruct (Shards.patchEntries l2).
  - cbn [app Shards.patchEntries]. rewrite IH. cbn [fst snd app].
    by rewrite app_assoc.
Qed.

(** X18: [updateShardCount], once patched, leaves every shard of the
    manager tagged, in the same order under the same ids; a shard that
    already had the tag is left as it is, any other gets its [send] wrapped
    once. A later call patches only the shards that have come since: the
    ones patched before keep their single wrapper, and the debug messages
    are for the new ones alone. *)
Theorem patchCreateShard_once {R}
    (original : Shards.Manager R → list value → result (Shards.Manager R))
    ws args ws1 l :
  original ws args = Ok ws1 →
  Shards.shards ws1 = Some l →
  ∃ patched log,
    Shards.patchCreateShard original ws args
    = Ok ({| Shards.shards := Some patched |}, log)
    ∧ Forall2
        (λ e e',
           e'.1 = e.1 ∧ Shards.tagged e'.2 = true ∧
           if Shards.tagged e.2 then e' = e
           else ∀ p data args,
                  Shards.send e'.2 p data args
                  = Gateway.patchShardOutbound (Shards.send e.2 p) p data args)
        l patched
    ∧ ∀ (later : Shards.Manager R → list value → result (Shards.Manager R))
        ws' args' fresh,
        later ws' args' = Ok {| Shards.shards := Some (patched ++ fresh)%list |} →
        Shards.patchCreateShard later ws' args'
        = Ok ({| Shards.shards :=
                   Some (patched ++ (Shards.patchEntries fresh).1)%list |},
              (Shards.patchEntries fresh).2).
Proof.
  intros Horiginal Hshards.
  exists (Shards.patchEntries l).1, (Shards.patchEntries l).2.
  split; [|split].
  - unfold Shards.patchCreateShard. rewrite Horiginal. cbn [mbind result_bind].
    by rewrite Hshards.
  - apply patchEntries_each.
  - intros later ws' args' fresh Hlater.
    unfold Shards.patchCreateShard. rewrite Hlater.
    cbn [mbind result_bind Shards.shards]. rewrite patchEntries_app.
    assert (Shards.patchEntries (Shards.patchEntries l).1
            = ((Shards.patchEntries l).1, [])) as ->; [|done].
    apply patchEntries_tagged, patchEntries_all_tagged.
Qed.

(** X18 at a manager with two fresh shards. *)
Lemma patchCreateShard_once_example :
  let shard : Shards.Shard unit :=
    {| Shards.tagged := false; Shards.send := λ _ _ _, Ok () |} in
  ∃ patched,
    Shards.patchCreateShard (λ ws _, Ok ws)
      {| Shards.shards := Some [(0%Z, shard); (1%Z, shard)] |} []
    = Ok ({| Shards.shards := Some patched |},
          ["patch-gateway: Patching shard with ID 0.";
           "patch-gateway: Patching shard with ID 1."])
    ∧ Shards.patchCreateShard (λ ws _, Ok ws)
        {| Shards.shards := Some patched |} []
      = Ok ({| Shards.shards := Some patched |}, []).
Proof.
  intros shard.
  destruct (patchCreateShard_once (λ ws _, Ok ws)
              {| Shards.shards := Some [(0%Z, shard); (1%Z, shard)] |} []
              {| Shards.shards := Some [(0%Z, shard); (1%Z, shard)] |}
              [(0%Z, shard); (1%Z, shard)] eq_refl eq_refl)
    as (patched & log & Hfirst & _ & Hlater).
  exists patched. split.
  - rewrite Hfirst. injection Hfirst as _ <-. reflexivity.
  - rewrite (Hlater (λ ws _, Ok ws) {| Shards.shards := Some patched |} [] []).
    + cbn [Shards.patchEntries fst snd]. by rewrite app_nil_r.
    + by rewrite app_nil_r.
Defined.

(** ** Redirects *)


